(** * evo/threads: the Win32 backend of the C11 threads emulation

    A shallow embedding of [src/evo/threads/win32.c] and of the constants of
    [include/evo/threads/threads.h], with the properties the specification
    states about them.

    Conventions.
    - C integers are [Z] with the wrap-around of their width written out
      ([time_t] is the 64-bit signed type of the Windows CRT, [long] and [int]
      are 32-bit, [DWORD] is 32-bit unsigned).
    - Pointers are [Z] addresses with [0] for [NULL]; a pointer argument that
      the code dereferences is passed as the [option] of the pointee.
    - The Windows API is outside the repository.  Every function below that
      calls it threads a [world] holding the native objects the call touches
      and a log of the native calls made; results the program does not
      determine (what other threads did to a critical section, what the clock
      reads, whether a wait failed) come from an [env] fixed in advance. *)

From Stdlib Require Import ZArith Lia List Bool.
From stdpp Require Import base list.
Import ListNotations.
Local Open Scope Z_scope.

(** ** Machine integers *)

Definition wrap_unsigned (bits z : Z) : Z := z mod 2 ^ bits.

Definition wrap_signed (bits z : Z) : Z :=
  (z + 2 ^ (bits - 1)) mod 2 ^ bits - 2 ^ (bits - 1).

Definition to_DWORD (z : Z) : Z := wrap_unsigned 32 z.
Definition to_int (z : Z) : Z := wrap_signed 32 z.
Definition to_time_t (z : Z) : Z := wrap_signed 64 z.

Definition time_t_max : Z := 9223372036854775807.
Definition DWORD_modulus : Z := 4294967296.

(** ** threads.h: enumeration constants *)

Definition mtx_plain : Z := 0.
Definition mtx_try : Z := 1.
Definition mtx_timed : Z := 2.
Definition mtx_recursive : Z := 4.

Definition thrd_success : Z := 0.
Definition thrd_timedout : Z := 1.
Definition thrd_error : Z := 2.
Definition thrd_busy : Z := 3.
Definition thrd_nomem : Z := 4.

(** ** Time conversion *)

Module Time.

Record timespec := { tv_sec : Z; tv_nsec : Z }.

(** [(ts->tv_sec * 1000U) + (ts->tv_nsec / 1000000L)]: the product is
    computed in [time_t], the quotient in [long] (C division truncates
    towards zero), the sum in [time_t]. *)
Definition impl_timespec2msec (ts : timespec) : Z :=
  to_time_t (to_time_t (tv_sec ts * 1000) + Z.quot (tv_nsec ts) 1000000).

(** [impl_abs2relmsec]; [now] is what [timespec_get (&now, TIME_UTC)]
    stored. *)
Definition impl_abs2relmsec (now abs_time : timespec) : Z :=
  let abs_ms := impl_timespec2msec abs_time in
  let now_ms := impl_timespec2msec now in
  let rel_ms :=
    if abs_ms >? now_ms then to_DWORD (to_time_t (abs_ms - now_ms)) else 0 in
  rel_ms.

(** The specification's reading of a time point: seconds times 1000 plus
    nanoseconds divided by 1000000, as an unbounded integer. *)
Definition spec_milliseconds (ts : timespec) : Z :=
  tv_sec ts * 1000 + tv_nsec ts / 1000000.

(** A time point as [time.h] documents it (seconds non-negative, nanoseconds
    in [0, 999999999]) whose millisecond count fits [time_t]. *)
Definition timespec_ok (ts : timespec) : Prop :=
  0 <= tv_sec ts /\ 0 <= tv_nsec ts <= 999999999 /\
  tv_sec ts * 1000 + 999 <= time_t_max.

(** A clock reading and a deadline exactly 2^32 ms after it. *)
Definition reading : timespec := {| tv_sec := 1700000000; tv_nsec := 0 |}.
Definition far_deadline : timespec :=
  {| tv_sec := 1704294967; tv_nsec := 296000000 |}.

(** A time point in nanoseconds, as an unbounded integer. *)
Definition nanoseconds (ts : timespec) : Z :=
  tv_sec ts * 1000000000 + tv_nsec ts.

End Time.

(** ** Mutex functions (7.25.4) *)

Module Mtx.

Import Time.

(** Native calls a mutex operation makes, with what they returned. *)
Inductive native_call :=
| CallInitializeCriticalSection
| CallTryEnterCriticalSection (entered : bool)
| CallTimespecGet (now : timespec)
| CallSwitchToThread.

(** What the calling thread cannot decide: its own id, which other thread
    (0: none) holds the critical section at the moment of the k-th
    [TryEnterCriticalSection] when the caller does not own it itself, and
    what the k-th reading of the clock is. *)
Record env := {
  self : Z;
  holder : nat -> Z;
  clock : nat -> timespec
}.

(** The [CRITICAL_SECTION] behind [*mtx] (the two fields of the header's
    mock that carry its state), the positions reached in [holder] and
    [clock], and the log. *)
Record world := {
  OwningThread : Z;
  RecursionCount : Z;
  tries : nat;
  reads : nat;
  calls : list native_call
}.

Definition InitializeCriticalSection (w : world) : world :=
  {| OwningThread := 0; RecursionCount := 0;
     tries := tries w; reads := reads w;
     calls := calls w ++ [CallInitializeCriticalSection] |}.

(** The owner of the section at the moment of the attempt made in [w]. *)
Definition owner_now (e : env) (w : world) : Z :=
  if OwningThread w =? self e then self e else holder e (tries w).

(** Win32 contract: non-zero when the section was free or is already owned
    by the caller, zero when another thread owns it. *)
Definition TryEnterCriticalSection (e : env) (w : world) : bool * world :=
  let o := owner_now e w in
  if (o =? 0) || (o =? self e) then
    (true, {| OwningThread := self e;
              RecursionCount :=
                if OwningThread w =? self e then RecursionCount w + 1 else 1;
              tries := S (tries w); reads := reads w;
              calls := calls w ++ [CallTryEnterCriticalSection true] |})
  else
    (false, {| OwningThread := o; RecursionCount := RecursionCount w;
               tries := S (tries w); reads := reads w;
               calls := calls w ++ [CallTryEnterCriticalSection false] |}).

Definition timespec_get (e : env) (w : world) : timespec * world :=
  let now := clock e (reads w) in
  (now, {| OwningThread := OwningThread w; RecursionCount := RecursionCount w;
           tries := tries w; reads := S (reads w);
           calls := calls w ++ [CallTimespecGet now] |}).

Definition SwitchToThread (w : world) : world :=
  {| OwningThread := OwningThread w; RecursionCount := RecursionCount w;
     tries := tries w; reads := reads w;
     calls := calls w ++ [CallSwitchToThread] |}.

(** [thrd_yield] *)
Definition thrd_yield (w : world) : world := SwitchToThread w.

(** [impl_abs2relmsec] with its clock read made explicit. *)
Definition impl_abs2relmsec (e : env) (abs_time : timespec) (w : world)
  : Z * world :=
  let (now, w') := timespec_get e w in
  (Time.impl_abs2relmsec now abs_time, w').

(** [mtx_init] *)
Definition mtx_init (type : Z) (w : world) : Z * world :=
  if negb (type =? mtx_plain)
     && negb (type =? mtx_timed)
     && negb (type =? mtx_try)
     && negb (type =? Z.lor mtx_plain mtx_recursive)
     && negb (type =? Z.lor mtx_timed mtx_recursive)
     && negb (type =? Z.lor mtx_try mtx_recursive)
  then (thrd_error, w)
  else (thrd_success, InitializeCriticalSection w).

(** [mtx_trylock] *)
Definition mtx_trylock (e : env) (w : world) : Z * world :=
  let (entered, w') := TryEnterCriticalSection e w in
  (if entered then thrd_success else thrd_busy, w').

(** [mtx_timedlock]; every turn of the [while] loop costs one unit of
    [fuel], and [None] is a loop that has not ended within it. *)
Fixpoint mtx_timedlock (fuel : nat) (e : env) (ts : timespec) (w : world)
  : option Z * world :=
  match fuel with
  | O => (None, w)
  | S fuel' =>
      let (r, w1) := mtx_trylock e w in
      if r =? thrd_success then (Some thrd_success, w1)
      else
        let (rel_ms, w2) := impl_abs2relmsec e ts w1 in
        if rel_ms =? 0 then (Some thrd_timedout, w2)
        else mtx_timedlock fuel' e ts (thrd_yield w2)
  end.

(** The six kinds [mtx_init] accepts. *)
Definition valid_kinds : list Z := [0; 1; 2; 4; 5; 6].

(** Another thread holds the section at the k-th attempt. *)
Definition busy_at (e : env) (k : nat) : bool :=
  negb (holder e k =? 0) && negb (holder e k =? self e).

(** The deadline [ts] has no time left at the r-th reading of the clock. *)
Definition expired_at (e : env) (ts : timespec) (r : nat) : bool :=
  Time.impl_abs2relmsec (clock e r) ts =? 0.

(** The attempt made in [w] meets a section held by another thread. *)
Definition held_by_other (e : env) (w : world) : Prop :=
  owner_now e w <> 0 /\ owner_now e w <> self e.

(** No other thread holds the section at the attempt made in [w]. *)
Definition not_held_by_other (e : env) (w : world) : Prop :=
  owner_now e w = 0 \/ owner_now e w = self e.

(** The log of [n] unsuccessful turns of the poll loop that start at clock
    position [r]: a failed attempt, a clock read, a yield. *)
Fixpoint failed_turns (e : env) (r n : nat) : list native_call :=
  match n with
  | O => []
  | S n' =>
      [CallTryEnterCriticalSection false; CallTimespecGet (clock e r);
       CallSwitchToThread] ++ failed_turns e (S r) n'
  end.

(** A world in which the caller does not own the section. *)
Definition idle : world :=
  {| OwningThread := 0; RecursionCount := 0; tries := 0; reads := 0;
     calls := [] |}.

(** Thread 2 holds the section during the first three attempts of thread 1
    and has left it at the fourth; the clock advances 10 ms per reading. *)
Definition contended : env :=
  {| self := 1;
     holder := fun k => if (k <? 3)%nat then 2 else 0;
     clock := fun k => {| tv_sec := 100; tv_nsec := Z.of_nat k * 10000000 |} |}.

(** Thread 2 never leaves the section. *)
Definition stuck : env :=
  {| self := 1;
     holder := fun _ => 2;
     clock := fun k => {| tv_sec := 100; tv_nsec := Z.of_nat k * 10000000 |} |}.

(** Thread 2 never leaves the section and the clock stands still. *)
Definition frozen : env :=
  {| self := 1;
     holder := fun _ => 2;
     clock := fun _ => {| tv_sec := 100; tv_nsec := 0 |} |}.

End Mtx.

(** ** Thread functions (7.25.5) *)

Module Thrd.

Import Time.

Definition INFINITE : Z := 4294967295.
Definition WAIT_OBJECT_0 : Z := 0.
Definition WAIT_FAILED : Z := 4294967295.

Inductive native_call :=
| CallWaitForSingleObject (h timeout : Z)
| CallGetExitCodeThread (h : Z)
| CallCloseHandle (h : Z)
| CallSleep (ms : Z).

(** What the operating system answers: the value [WaitForSingleObject]
    returns, and the exit code [GetExitCodeThread] stores ([None] when it
    returns zero). *)
Record env := {
  wait_result : Z;
  exit_code : option Z
}.

(** The thread handles the process holds open, and the log. *)
Record world := {
  handles : list Z;
  calls : list native_call
}.

Definition WaitForSingleObject (e : env) (h timeout : Z) (w : world)
  : Z * world :=
  (wait_result e,
   {| handles := handles w;
      calls := calls w ++ [CallWaitForSingleObject h timeout] |}).

Definition GetExitCodeThread (e : env) (h : Z) (w : world)
  : option Z * world :=
  (exit_code e,
   {| handles := handles w; calls := calls w ++ [CallGetExitCodeThread h] |}).

Definition CloseHandle (h : Z) (w : world) : world :=
  {| handles := filter (fun h' => h' <> h) (handles w);
     calls := calls w ++ [CallCloseHandle h] |}.

(** Win32 [Sleep]: the caller is suspended for [ms] milliseconds and goes
    on, except for [INFINITE], on which the suspension does not time out: the
    call never returns ([None]). *)
Definition Sleep (ms : Z) (w : world) : option world :=
  if ms =? INFINITE then None
  else Some {| handles := handles w; calls := calls w ++ [CallSleep ms] |}.

(** [thrd_join]; [res] is [None] for a null pointer and [Some v] for a
    pointer to an [int] holding [v]; the result carries what [*res] holds
    on return. *)
Definition thrd_join (e : env) (thr : Z) (res : option Z) (w : world)
  : Z * option Z * world :=
  let (w_, w1) := WaitForSingleObject e thr INFINITE w in
  if negb (w_ =? WAIT_OBJECT_0) then (thrd_error, res, w1)
  else
    match res with
    | Some _ =>
        let (got, w2) := GetExitCodeThread e thr w1 in
        match got with
        | None => (thrd_error, res, CloseHandle thr w2)
        | Some code => (thrd_success, Some (to_int code), CloseHandle thr w2)
        end
    | None => (thrd_success, res, CloseHandle thr w1)
    end.

(** How a call ends: it returns, it stops at a failed [assert], it
    dereferences a null pointer, or it never returns. *)
Inductive outcome (A : Type) :=
| Returns (a : A)
| AssertionFailed
| NullDereference
| NeverReturns.
Arguments Returns {A} a.
Arguments AssertionFailed {A}.
Arguments NullDereference {A}.
Arguments NeverReturns {A}.

(** [assert (cond)] of [assert.h]: checked when the file is compiled
    without [NDEBUG], compiled out when it is compiled with it ([ndebug]);
    the sources neither define nor undefine [NDEBUG], the build decides. *)
Definition c_assert {A : Type} (ndebug cond : bool) (rest : outcome A)
  : outcome A :=
  if ndebug then rest else if cond then rest else AssertionFailed.

Definition non_null {A : Type} (p : option A) : bool :=
  match p with Some _ => true | None => false end.

(** [thrd_sleep]; both arguments are pointers to a [timespec], and
    [remaining] is not used beyond its assertion. *)
Definition thrd_sleep (ndebug : bool) (time_point remaining : option timespec)
  (w : world) : outcome (Z * world) :=
  c_assert ndebug (non_null time_point)
    (c_assert ndebug (negb (non_null remaining))
       match time_point with
       | None => NullDereference
       | Some tp =>
           match Sleep (to_DWORD (impl_timespec2msec tp)) w with
           | Some w' => Returns (0, w')
           | None => NeverReturns
           end
       end).

(** The handle was released by the call: it is no longer open and a
    [CloseHandle] on it is in the log. *)
Definition released (thr : Z) (w : world) : Prop :=
  ~ In thr (handles w) /\ In (CallCloseHandle thr) (calls w).

Definition one_thread : world := {| handles := [7]; calls := [] |}.
Definition wait_fails : env :=
  {| wait_result := WAIT_FAILED; exit_code := Some 42 |}.
Definition exits_42 : env :=
  {| wait_result := WAIT_OBJECT_0; exit_code := Some 42 |}.

End Thrd.

(** ** Thread-specific storage functions (7.25.6) *)

Module Tss.

Definition EMULATED_THREADS_TSS_DTOR_SLOTNUM : nat := 64.
Definition TLS_OUT_OF_INDEXES : Z := 4294967295.

(** [struct impl_tss_dtor_entry]; [dtor] is a function pointer. *)
Record impl_tss_dtor_entry := { key : Z; dtor : Z }.

Definition no_entry : impl_tss_dtor_entry := {| key := 0; dtor := 0 |}.

Inductive native_call :=
| CallTlsAlloc (index : Z)
| CallTlsFree (index : Z).

(** The static table, the native slots: the indices in use, the indices
    [TlsAlloc] will hand out next (it fails once there is none), the
    values of the calling thread; then the destructor calls made so far,
    as (function, argument), and the log of slot allocation. *)
Record world := {
  impl_tss_dtor_tbl : list impl_tss_dtor_entry;
  tls_in_use : list Z;
  tls_next : list Z;
  tls_value : Z -> Z;
  dtor_calls : list (Z * Z);
  calls : list native_call
}.

Definition set_tbl (t : list impl_tss_dtor_entry) (w : world) : world :=
  {| impl_tss_dtor_tbl := t; tls_in_use := tls_in_use w;
     tls_next := tls_next w; tls_value := tls_value w;
     dtor_calls := dtor_calls w; calls := calls w |}.

Definition TlsAlloc (w : world) : Z * world :=
  match tls_next w with
  | [] =>
      (TLS_OUT_OF_INDEXES,
       {| impl_tss_dtor_tbl := impl_tss_dtor_tbl w;
          tls_in_use := tls_in_use w; tls_next := [];
          tls_value := tls_value w; dtor_calls := dtor_calls w;
          calls := calls w ++ [CallTlsAlloc TLS_OUT_OF_INDEXES] |})
  | k :: rest =>
      (k,
       {| impl_tss_dtor_tbl := impl_tss_dtor_tbl w;
          tls_in_use := k :: tls_in_use w; tls_next := rest;
          tls_value := fun k' => if k' =? k then 0 else tls_value w k';
          dtor_calls := dtor_calls w;
          calls := calls w ++ [CallTlsAlloc k] |})
  end.

Definition TlsFree (k : Z) (w : world) : world :=
  {| impl_tss_dtor_tbl := impl_tss_dtor_tbl w;
     tls_in_use := filter (fun k' => k' <> k) (tls_in_use w);
     tls_next := tls_next w; tls_value := tls_value w;
     dtor_calls := dtor_calls w;
     calls := calls w ++ [CallTlsFree k] |}.

Definition TlsGetValue (k : Z) (w : world) : Z := tls_value w k.

Definition TlsSetValue (k val : Z) (w : world) : bool * world :=
  if bool_decide (k ∈ tls_in_use w) then
    (true,
     {| impl_tss_dtor_tbl := impl_tss_dtor_tbl w;
        tls_in_use := tls_in_use w; tls_next := tls_next w;
        tls_value := fun k' => if k' =? k then val else tls_value w k';
        dtor_calls := dtor_calls w; calls := calls w |})
  else (false, w).

(** The entry at index [i] of the table. *)
Definition entry_at (w : world) (i : nat) : impl_tss_dtor_entry :=
  default no_entry (impl_tss_dtor_tbl w !! i).

(** The [for] loop of [impl_tss_dtor_register]: the value of [i] on leaving
    it, with [n] iterations left when at index [i]. *)
Fixpoint first_free (w : world) (i n : nat) : nat :=
  match n with
  | O => i
  | S n' => if dtor (entry_at w i) =? 0 then i else first_free w (S i) n'
  end.

(** [impl_tss_dtor_register] *)
Definition impl_tss_dtor_register (k d : Z) (w : world) : Z * world :=
  let i := first_free w 0 EMULATED_THREADS_TSS_DTOR_SLOTNUM in
  if (i =? EMULATED_THREADS_TSS_DTOR_SLOTNUM)%nat then (1, w)
  else (0, set_tbl (<[i := {| key := k; dtor := d |}]> (impl_tss_dtor_tbl w)) w).

(** [tss_get] *)
Definition tss_get (k : Z) (w : world) : Z := TlsGetValue k w.

(** [tss_set] *)
Definition tss_set (k val : Z) (w : world) : Z * world :=
  let (ok, w') := TlsSetValue k val w in
  (if ok then thrd_success else thrd_error, w').

(** [tss_create]; the second component is what [*key] holds on return. *)
Definition tss_create (d : Z) (w : world) : Z * Z * world :=
  let (k, w1) := TlsAlloc w in
  let last_return (w' : world) :=
    (if negb (k =? TLS_OUT_OF_INDEXES) then thrd_success else thrd_error,
     k, w') in
  if negb (d =? 0) then
    let (failed, w2) := impl_tss_dtor_register k d w1 in
    if negb (failed =? 0) then (thrd_error, k, TlsFree k w2)
    else last_return w2
  else last_return w1.

(** [tss_delete] *)
Definition tss_delete (k : Z) (w : world) : world := TlsFree k w.

Section Sweep.

(** What the bodies of the registered destructors, which are the
    caller's code, do to the world when called. *)
Variable user : Z -> Z -> world -> world.

(** The call [(impl_tss_dtor_tbl[i].dtor)(val)]. *)
Definition call_dtor (d val : Z) (w : world) : world :=
  user d val
    {| impl_tss_dtor_tbl := impl_tss_dtor_tbl w;
       tls_in_use := tls_in_use w; tls_next := tls_next w;
       tls_value := tls_value w;
       dtor_calls := dtor_calls w ++ [(d, val)]; calls := calls w |}.

(** The body of the loop of [impl_tss_dtor_invoke] at index [i]. *)
Definition visit (i : nat) (w : world) : world :=
  if negb (dtor (entry_at w i) =? 0) then
    let val := tss_get (key (entry_at w i)) w in
    if negb (val =? 0) then call_dtor (dtor (entry_at w i)) val w else w
  else w.

Fixpoint sweep_from (i n : nat) (w : world) : world :=
  match n with
  | O => w
  | S n' => sweep_from (S i) n' (visit i w)
  end.

(** [impl_tss_dtor_invoke] *)
Definition impl_tss_dtor_invoke (w : world) : world :=
  sweep_from 0 EMULATED_THREADS_TSS_DTOR_SLOTNUM w.

(** Destructor bodies that leave the table, the values of the exiting
    thread and the record of calls alone. *)
Definition quiet : Prop :=
  forall d val w,
    impl_tss_dtor_tbl (user d val w) = impl_tss_dtor_tbl w /\
    tls_value (user d val w) = tls_value w /\
    dtor_calls (user d val w) = dtor_calls w.

End Sweep.

(** The table of a freshly loaded process: static storage is zeroed. *)
Definition empty_tbl : list impl_tss_dtor_entry :=
  replicate EMULATED_THREADS_TSS_DTOR_SLOTNUM no_entry.

Definition tbl_full (w : world) : Prop :=
  length (impl_tss_dtor_tbl w) = EMULATED_THREADS_TSS_DTOR_SLOTNUM /\
  Forall (fun en => dtor en <> 0) (impl_tss_dtor_tbl w).

(** [i] is the first free entry of the table. *)
Definition first_free_is (w : world) (i : nat) : Prop :=
  (i < EMULATED_THREADS_TSS_DTOR_SLOTNUM)%nat /\
  dtor (entry_at w i) = 0 /\
  forall j, (j < i)%nat -> dtor (entry_at w j) <> 0.

(** Registering the pairs of [regs] one after the other. *)
Fixpoint register_all (regs : list (Z * Z)) (w : world) : world :=
  match regs with
  | [] => w
  | (k, d) :: regs' => register_all regs' (snd (impl_tss_dtor_register k d w))
  end.

Definition entry_of (r : Z * Z) : impl_tss_dtor_entry :=
  {| key := fst r; dtor := snd r |}.

(** The call the sweep owes to one entry of the table: none when the entry
    is free or the thread's value for its slot is null. *)
Definition due (values : Z -> Z) (en : impl_tss_dtor_entry) : list (Z * Z) :=
  if dtor en =? 0 then []
  else if values (key en) =? 0 then []
  else [(dtor en, values (key en))].

(** The table after the pairs [done] were registered in a fresh process. *)
Definition tbl_of (done : list (Z * Z)) : list impl_tss_dtor_entry :=
  map entry_of done
  ++ replicate (EMULATED_THREADS_TSS_DTOR_SLOTNUM - length done) no_entry.


Definition fresh : world :=
  {| impl_tss_dtor_tbl := empty_tbl; tls_in_use := []; tls_next := [3; 4; 5];
     tls_value := fun _ => 0; dtor_calls := []; calls := [] |}.

(** No native index is left. *)
Definition exhausted : world :=
  {| impl_tss_dtor_tbl := empty_tbl; tls_in_use := []; tls_next := [];
     tls_value := fun _ => 0; dtor_calls := []; calls := [] |}.

(** All 64 entries are taken. *)
Definition crowded : world :=
  {| impl_tss_dtor_tbl :=
       replicate EMULATED_THREADS_TSS_DTOR_SLOTNUM {| key := 1; dtor := 4096 |};
     tls_in_use := [1]; tls_next := [3; 4; 5];
     tls_value := fun _ => 0; dtor_calls := []; calls := [] |}.

Definition silent : Z -> Z -> world -> world := fun _ _ w => w.

(** An exiting thread that has set slots 3 and 5 and never set slot 4. *)
Definition exiting : world :=
  {| impl_tss_dtor_tbl := empty_tbl; tls_in_use := [5; 4; 3]; tls_next := [];
     tls_value := fun k => if k =? 3 then 111 else if k =? 5 then 222 else 0;
     dtor_calls := []; calls := [] |}.



End Tss.

(** ** Initialization functions (7.25.2): the emulated [call_once] *)

Module Once.

(** The [#else] branch of [call_once], taken when
    [EMULATED_THREADS_USE_NATIVE_CALL_ONCE] is not defined.  Several callers
    share one flag; each access to [flag->status] is one atomic step, and the
    steps of the callers interleave in an arbitrary order.  [func] is the
    caller's code: it is entered, and it returns, without touching the flag.

    Where a caller of [call_once (flag, func)] stands in that branch: *)
Inductive pc :=
| AtExchange   (* about to run InterlockedCompareExchangePointer *)
| AtCall       (* won the exchange, about to call func *)
| InFunc       (* inside func *)
| AtPublish    (* func has returned, about to run InterlockedExchangePointer *)
| AtTest       (* lost the exchange, about to test flag->status == 1 *)
| AtYield      (* the test held, about to call thrd_yield *)
| Returned.

(** The flag shared by the callers, how often [func] has been entered and
    how often it has returned, and the callers. *)
Record state := {
  status : Z;
  started : nat;
  finished : nat;
  callers : list pc
}.

(** [InterlockedCompareExchangePointer (dest, exchange, comparand)]: the
    value read, and the value left in [*dest]. *)
Definition InterlockedCompareExchangePointer (dest exchange comparand : Z)
  : Z * Z :=
  (dest, if dest =? comparand then exchange else dest).

(** [InterlockedExchangePointer (dest, value)] *)
Definition InterlockedExchangePointer (dest value : Z) : Z * Z :=
  (dest, value).

Definition at_pc (i : nat) (p : pc) (s : state) : state :=
  {| status := status s; started := started s; finished := finished s;
     callers := <[i := p]> (callers s) |}.

(** One atomic step of caller [i]. *)
Definition step (i : nat) (s : state) : state :=
  match callers s !! i with
  | None => s
  | Some AtExchange =>
      let (old, new) := InterlockedCompareExchangePointer (status s) 1 0 in
      {| status := new; started := started s; finished := finished s;
         callers := <[i := if old =? 0 then AtCall else AtTest]> (callers s) |}
  | Some AtCall =>
      {| status := status s; started := S (started s); finished := finished s;
         callers := <[i := InFunc]> (callers s) |}
  | Some InFunc =>
      {| status := status s; started := started s; finished := S (finished s);
         callers := <[i := AtPublish]> (callers s) |}
  | Some AtPublish =>
      let (_, new) := InterlockedExchangePointer (status s) 2 in
      {| status := new; started := started s; finished := finished s;
         callers := <[i := Returned]> (callers s) |}
  | Some AtTest =>
      at_pc i (if status s =? 1 then AtYield else Returned) s
  | Some AtYield => at_pc i AtTest s
  | Some Returned => s
  end.

(** The callers take steps in the order [sched] names them. *)
Definition run (sched : list nat) (s : state) : state :=
  fold_left (fun s' i => step i s') sched s.

(** [n] callers racing on a flag that holds [ONCE_FLAG_INIT]. *)
Definition init (n : nat) : state :=
  {| status := 0; started := 0; finished := 0;
     callers := replicate n AtExchange |}.

(** Counting the callers that stand at a place of a given kind. *)
Fixpoint count (f : pc -> bool) (l : list pc) : nat :=
  match l with
  | [] => 0
  | p :: l' => (if f p then 1 else 0) + count f l'
  end.

Definition claimed (p : pc) : bool :=
  match p with AtCall | InFunc | AtPublish => true | _ => false end.
Definition entered (p : pc) : bool :=
  match p with InFunc | AtPublish => true | _ => false end.
Definition done_func (p : pc) : bool :=
  match p with AtPublish => true | _ => false end.
Definition returned (p : pc) : bool :=
  match p with Returned => true | _ => false end.
Definition arrived (p : pc) : bool :=
  match p with AtExchange => false | _ => true end.

(** What holds of every state the callers can reach. *)
Definition inv (s : state) : Prop :=
  (status s = 0 /\ count arrived (callers s) = 0%nat /\
   started s = 0%nat /\ finished s = 0%nat) \/
  (status s = 1 /\ count claimed (callers s) = 1%nat /\
   count returned (callers s) = 0%nat /\
   started s = count entered (callers s) /\
   finished s = count done_func (callers s)) \/
  (status s = 2 /\ count claimed (callers s) = 0%nat /\
   started s = 1%nat /\ finished s = 1%nat).

(** The schedule that lets caller 0 run to its return and then every
    other caller in turn. *)
Definition in_turn (n : nat) : list nat :=
  [0; 0; 0; 0]%nat ++ flat_map (fun i => [i; i]) (seq 1 (n - 1)).

(** [n] callers arriving at a flag whose [status] holds [v]. *)
Definition init_with (v : Z) (n : nat) : state :=
  {| status := v; started := 0; finished := 0;
     callers := replicate n AtExchange |}.

End Once.

(** ** Thread creation and the start routine (7.25.5.1, 7.25.5.5) *)

Module Spawn.

(** Values of [errno.h] in the Windows C runtime. *)
Definition EAGAIN : Z := 11.
Definition EACCES : Z := 13.

(** [struct impl_thrd_param]; [func] is a function pointer. *)
Record impl_thrd_param := { func : Z; arg : Z }.

(** What the C runtime answers: the block [malloc] returns (0: none), the
    handle [_beginthreadex] returns (0: failure), and [errno] as read
    after a failed [_beginthreadex]. *)
Record env := {
  malloc_result : Z;
  beginthreadex_result : Z;
  errno : Z
}.

(** The live blocks of the heap that hold a start package, with their
    contents, and the threads begun, as (handle, argument of the start
    routine). *)
Record world := {
  heap : list (Z * impl_thrd_param);
  begun : list (Z * Z)
}.

Definition malloc (e : env) (w : world) : Z * world :=
  if malloc_result e =? 0 then (0, w)
  else (malloc_result e,
        {| heap := (malloc_result e, {| func := 0; arg := 0 |}) :: heap w;
           begun := begun w |}).

Definition free (p : Z) (w : world) : world :=
  {| heap := filter (fun b => fst b <> p) (heap w); begun := begun w |}.

(** The package stored at [p], when [p] is a live block. *)
Fixpoint load_from (p : Z) (h : list (Z * impl_thrd_param))
  : option impl_thrd_param :=
  match h with
  | [] => None
  | b :: h' => if fst b =? p then Some (snd b) else load_from p h'
  end.

Definition load (p : Z) (w : world) : option impl_thrd_param :=
  load_from p (heap w).

(** [pack->func = f] and [pack->arg = a] *)
Definition set_func (p f : Z) (w : world) : world :=
  {| heap := map (fun b => if fst b =? p
                           then (fst b, {| func := f; arg := arg (snd b) |})
                           else b) (heap w);
     begun := begun w |}.

Definition set_arg (p a : Z) (w : world) : world :=
  {| heap := map (fun b => if fst b =? p
                           then (fst b, {| func := func (snd b); arg := a |})
                           else b) (heap w);
     begun := begun w |}.

(** [_beginthreadex (NULL, 0, impl_thrd_routine, p, 0, NULL)] *)
Definition beginthreadex (e : env) (p : Z) (w : world) : Z * world :=
  if beginthreadex_result e =? 0 then (0, w)
  else (beginthreadex_result e,
        {| heap := heap w;
           begun := (beginthreadex_result e, p) :: begun w |}).

(** [thrd_create]; [thr] is what [*thr] holds before the call, and the
    second component of the result what it holds on return. *)
Definition thrd_create (e : env) (thr f a : Z) (w : world) : Z * Z * world :=
  let (pack, w1) := malloc e w in
  if pack =? 0 then (thrd_nomem, thr, w1)
  else
    let w2 := set_arg pack a (set_func pack f w1) in
    let (handle, w3) := beginthreadex e pack w2 in
    if handle =? 0 then
      let w4 := free pack w3 in
      if (errno e =? EAGAIN) || (errno e =? EACCES)
      then (thrd_nomem, thr, w4)
      else (thrd_error, thr, w4)
    else (thrd_success, handle, w3).

Section Routine.

(** The destructor bodies, as for the sweep, and the thread functions:
    [body f a t] is what the function at [f] returns when called on [a],
    with what it did to the thread-specific storage. *)
Variable user : Z -> Z -> Tss.world -> Tss.world.
Variable body : Z -> Z -> Tss.world -> Z * Tss.world.

(** [impl_thrd_routine]: the value returned to the native layer, the heap
    and the thread-specific storage; [None] when [p] is not a live
    package. *)
Definition impl_thrd_routine (p : Z) (w : world) (t : Tss.world)
  : option (Z * world * Tss.world) :=
  match load p w with
  | None => None
  | Some pack =>
      let w1 := free p w in
      let (code, t1) := body (func pack) (arg pack) t in
      let t2 := Tss.impl_tss_dtor_invoke user t1 in
      Some (to_DWORD code, w1, t2)
  end.

(** [thrd_exit]: the status handed to [_endthreadex], which ends the
    thread, and the thread-specific storage at that point. *)
Definition thrd_exit (res : Z) (t : Tss.world) : Z * Tss.world :=
  let t1 := Tss.impl_tss_dtor_invoke user t in
  (to_DWORD res, t1).

End Routine.

(** The range of [int]. *)
Definition int_range (z : Z) : Prop := -2147483648 <= z <= 2147483647.

Definition no_threads : world := {| heap := []; begun := [] |}.

Definition spawn_ok : env :=
  {| malloc_result := 4096; beginthreadex_result := 7; errno := 0 |}.
Definition spawn_refused : env :=
  {| malloc_result := 4096; beginthreadex_result := 0; errno := EAGAIN |}.
Definition spawn_broken : env :=
  {| malloc_result := 4096; beginthreadex_result := 0; errno := 22 |}.
Definition no_memory : env :=
  {| malloc_result := 0; beginthreadex_result := 7; errno := 0 |}.

(** A thread function that sets slots 3 and 5 to its argument and returns
    -1. *)
Definition sets_3_and_5 : Z -> Z -> Tss.world -> Z * Tss.world :=
  fun _ a t => (-1, snd (Tss.tss_set 5 a (snd (Tss.tss_set 3 a t)))).

End Spawn.

(** ** Condition variable functions (7.25.3) *)

Module Cnd.

Import Time.

Definition INFINITE : Z := 4294967295.
Definition ERROR_TIMEOUT : Z := 1460.

Inductive native_call :=
| CallInitializeConditionVariable
| CallWakeConditionVariable
| CallWakeAllConditionVariable
| CallSleepConditionVariableCS (timeout : Z).

(** What the operating system answers during a wait: the clock reading,
    whether [SleepConditionVariableCS] returns non-zero, and the value of
    [GetLastError] after it returned zero. *)
Record env := {
  now : timespec;
  woken : bool;
  last_error : Z
}.

Record world := { calls : list native_call }.

Definition SleepConditionVariableCS (e : env) (timeout : Z) (w : world)
  : bool * world :=
  (woken e, {| calls := calls w ++ [CallSleepConditionVariableCS timeout] |}).

(** [cnd_timedwait] *)
Definition cnd_timedwait (e : env) (abs_time : timespec) (w : world)
  : Z * world :=
  let timeout := Time.impl_abs2relmsec (now e) abs_time in
  let (ok, w1) := SleepConditionVariableCS e timeout w in
  if ok then (thrd_success, w1)
  else (if last_error e =? ERROR_TIMEOUT then thrd_timedout else thrd_error, w1).

(** [cnd_wait] *)
Definition cnd_wait (e : env) (w : world) : Z * world :=
  let (_, w1) := SleepConditionVariableCS e INFINITE w in
  (thrd_success, w1).

Definition quiet_cv : world := {| calls := [] |}.

Definition timing_out : env :=
  {| now := {| tv_sec := 100; tv_nsec := 0 |}; woken := false;
     last_error := ERROR_TIMEOUT |}.

End Cnd.

(** * Properties *)

(** ** Machine integers *)

Lemma wrap_signed_small bits z :
  0 < bits -> - 2 ^ (bits - 1) <= z < 2 ^ (bits - 1) -> wrap_signed bits z = z.
Proof.
  intros Hb Hz. unfold wrap_signed.
  assert (E : 2 ^ bits = 2 * 2 ^ (bits - 1)).
  { replace bits with (Z.succ (bits - 1)) at 1 by lia.
    rewrite Z.pow_succ_r by lia. reflexivity. }
  rewrite Z.mod_small by lia. lia.
Qed.

Lemma to_time_t_small z :
  - time_t_max - 1 <= z <= time_t_max -> to_time_t z = z.
Proof.
  intros Hz. unfold to_time_t. apply wrap_signed_small; [lia|].
  change (2 ^ (64 - 1)) with (time_t_max + 1). lia.
Qed.

Lemma to_DWORD_range z : 0 <= to_DWORD z < DWORD_modulus.
Proof.
  unfold to_DWORD, wrap_unsigned. change (2 ^ 32) with DWORD_modulus.
  apply Z.mod_pos_bound. reflexivity.
Qed.

(** ** Time conversion *)

Section TimeFacts.

Import Time.

Lemma nsec_quotient_range n :
  0 <= n <= 999999999 -> 0 <= n / 1000000 <= 999.
Proof.
  intros Hn. split.
  - apply Z.div_pos; lia.
  - enough (n / 1000000 < 1000) by lia.
    apply Z.div_lt_upper_bound; lia.
Qed.

Lemma timespec2msec_exact ts :
  timespec_ok ts -> impl_timespec2msec ts = spec_milliseconds ts.
Proof.
  intros (Hs & Hn & Hfit). unfold impl_timespec2msec, spec_milliseconds.
  rewrite Z.quot_div_nonneg by lia.
  pose proof (nsec_quotient_range (tv_nsec ts) Hn) as Hq.
  assert (Hmax : time_t_max = 9223372036854775807) by reflexivity.
  rewrite (to_time_t_small (tv_sec ts * 1000)) by lia.
  apply to_time_t_small. lia.
Qed.

Lemma spec_milliseconds_range ts :
  timespec_ok ts -> 0 <= spec_milliseconds ts <= time_t_max.
Proof.
  intros (Hs & Hn & Hfit). unfold spec_milliseconds.
  pose proof (nsec_quotient_range (tv_nsec ts) Hn). lia.
Qed.

(** C4, as stated, fails: a deadline 2^32 ms (about 49.7 days) after the
    clock reading is in the future, yet the conversion returns 0 and not
    the difference. *)
Lemma abs2relmsec_far_deadline_is_zero :
  timespec_ok reading /\ timespec_ok far_deadline /\
  spec_milliseconds reading < spec_milliseconds far_deadline /\
  impl_abs2relmsec reading far_deadline = 0 /\
  impl_abs2relmsec reading far_deadline
    <> spec_milliseconds far_deadline - spec_milliseconds reading.
Proof.
  repeat split; vm_compute; congruence.
Qed.

(** C4, amended: for time points whose millisecond count fits [time_t],
    the conversion returns the deadline in milliseconds minus the clock
    reading in milliseconds, reduced modulo 2^32 by the cast to [DWORD],
    when the deadline is in the future, so it returns the difference itself
    whenever that is below 2^32; it returns exactly zero when the deadline
    is at or before the reading; and it is never negative. *)
Theorem abs2relmsec_remaining now abs_time :
  timespec_ok now -> timespec_ok abs_time ->
  let remaining := spec_milliseconds abs_time - spec_milliseconds now in
  (0 < remaining ->
     impl_abs2relmsec now abs_time = remaining mod DWORD_modulus) /\
  (0 < remaining < DWORD_modulus -> impl_abs2relmsec now abs_time = remaining) /\
  (remaining <= 0 -> impl_abs2relmsec now abs_time = 0) /\
  0 <= impl_abs2relmsec now abs_time.
Proof.
  intros Hnow Habs remaining.
  pose proof (spec_milliseconds_range _ Hnow) as Rn.
  pose proof (spec_milliseconds_range _ Habs) as Ra.
  assert (E : impl_abs2relmsec now abs_time =
              if 0 <? remaining then remaining mod DWORD_modulus else 0).
  { unfold impl_abs2relmsec.
    rewrite !timespec2msec_exact by assumption. fold remaining.
    destruct (Z.gtb_spec (spec_milliseconds abs_time) (spec_milliseconds now));
      destruct (Z.ltb_spec 0 remaining); try (unfold remaining in *; lia).
    rewrite to_time_t_small by (unfold remaining in *; lia). reflexivity. }
  rewrite E. repeat split.
  - intros H. destruct (Z.ltb_spec 0 remaining); [reflexivity|lia].
  - intros H. destruct (Z.ltb_spec 0 remaining); [|lia].
    apply Z.mod_small. lia.
  - intros H. destruct (Z.ltb_spec 0 remaining); [lia|reflexivity].
  - destruct (Z.ltb_spec 0 remaining); [|lia].
    apply Z.mod_pos_bound. reflexivity.
Qed.

Lemma abs2relmsec_remaining_witness :
  impl_abs2relmsec {| tv_sec := 100; tv_nsec := 0 |}
                   {| tv_sec := 100; tv_nsec := 500999999 |} = 500 /\
  impl_abs2relmsec {| tv_sec := 100; tv_nsec := 0 |}
                   {| tv_sec := 99; tv_nsec := 999999999 |} = 0.
Proof.
  split.
  - apply (abs2relmsec_remaining {| tv_sec := 100; tv_nsec := 0 |}
                                 {| tv_sec := 100; tv_nsec := 500999999 |});
      vm_compute; repeat split; congruence.
  - apply (abs2relmsec_remaining {| tv_sec := 100; tv_nsec := 0 |}
                                 {| tv_sec := 99; tv_nsec := 999999999 |});
      vm_compute; repeat split; congruence.
Defined.

End TimeFacts.

(** ** Mutex functions *)

Section MtxFacts.

Import Time Mtx.

(** C7: [mtx_init] returns [thrd_success] after constructing the critical
    section for each of the six kinds 0, 1, 2, 4, 5, 6 (plain, try, timed,
    and each with the recursive flag), and for every other value of
    [type] returns [thrd_error] with the world as it was: no native call is
    made and the lock object is not constructed. *)
Theorem mtx_init_kinds type w :
  (In type valid_kinds ->
     mtx_init type w = (thrd_success, InitializeCriticalSection w)) /\
  (~ In type valid_kinds -> mtx_init type w = (thrd_error, w)).
Proof.
  unfold mtx_init, valid_kinds.
  change (Z.lor mtx_plain mtx_recursive) with 4.
  change (Z.lor mtx_timed mtx_recursive) with 6.
  change (Z.lor mtx_try mtx_recursive) with 5.
  unfold mtx_plain, mtx_timed, mtx_try. simpl In.
  destruct (Z.eqb_spec type 0), (Z.eqb_spec type 2), (Z.eqb_spec type 1),
    (Z.eqb_spec type 4), (Z.eqb_spec type 6), (Z.eqb_spec type 5);
    simpl; split; intros H; try reflexivity; exfalso; lia.
Qed.

Lemma mtx_init_kinds_witness :
  mtx_init 6 idle = (thrd_success, InitializeCriticalSection idle) /\
  mtx_init 3 idle = (thrd_error, idle).
Proof.
  split.
  - apply (mtx_init_kinds 6 idle). simpl. lia.
  - apply (mtx_init_kinds 3 idle). simpl. lia.
Defined.

Lemma held_by_other_busy e w :
  OwningThread w <> self e ->
  held_by_other e w <-> busy_at e (tries w) = true.
Proof.
  intros Hown. unfold held_by_other, busy_at, owner_now.
  destruct (Z.eqb_spec (OwningThread w) (self e)); [contradiction|].
  destruct (Z.eqb_spec (holder e (tries w)) 0),
    (Z.eqb_spec (holder e (tries w)) (self e)); simpl; intuition congruence.
Qed.

Lemma not_held_by_other_free e w :
  OwningThread w <> self e -> busy_at e (tries w) = false ->
  not_held_by_other e w.
Proof.
  intros Hown. unfold not_held_by_other, busy_at, owner_now.
  destruct (Z.eqb_spec (OwningThread w) (self e)); [contradiction|].
  destruct (Z.eqb_spec (holder e (tries w)) 0),
    (Z.eqb_spec (holder e (tries w)) (self e)); simpl; intuition congruence.
Qed.

Lemma mtx_trylock_free e w :
  not_held_by_other e w ->
  fst (mtx_trylock e w) = thrd_success /\
  OwningThread (snd (mtx_trylock e w)) = self e /\
  calls (snd (mtx_trylock e w)) =
    calls w ++ [CallTryEnterCriticalSection true].
Proof.
  intros H. unfold mtx_trylock, TryEnterCriticalSection.
  destruct (Z.eqb_spec (owner_now e w) 0), (Z.eqb_spec (owner_now e w) (self e));
    simpl; auto.
  destruct H; contradiction.
Qed.

Lemma mtx_trylock_held e w :
  held_by_other e w ->
  mtx_trylock e w =
    (thrd_busy,
     {| OwningThread := owner_now e w; RecursionCount := RecursionCount w;
        tries := S (tries w); reads := reads w;
        calls := calls w ++ [CallTryEnterCriticalSection false] |}).
Proof.
  intros [H0 Hs]. unfold mtx_trylock, TryEnterCriticalSection.
  destruct (Z.eqb_spec (owner_now e w) 0), (Z.eqb_spec (owner_now e w) (self e));
    simpl; try contradiction. reflexivity.
Qed.

Lemma mtx_trylock_result e w :
  fst (mtx_trylock e w) = thrd_success \/ fst (mtx_trylock e w) = thrd_busy.
Proof.
  unfold mtx_trylock. destruct (TryEnterCriticalSection e w) as [[|] w']; auto.
Qed.

Lemma past_deadline_expired now ts :
  impl_timespec2msec ts <= impl_timespec2msec now ->
  Time.impl_abs2relmsec now ts = 0.
Proof.
  intros H. unfold Time.impl_abs2relmsec.
  destruct (Z.gtb_spec (impl_timespec2msec ts) (impl_timespec2msec now));
    [lia|reflexivity].
Qed.

(** One turn of the loop that neither acquires the section nor meets the
    deadline. *)
Lemma mtx_timedlock_turn fuel e ts w :
  held_by_other e w -> expired_at e ts (reads w) = false ->
  mtx_timedlock (S fuel) e ts w =
    mtx_timedlock fuel e ts
      {| OwningThread := owner_now e w; RecursionCount := RecursionCount w;
         tries := S (tries w); reads := S (reads w);
         calls := calls w ++ failed_turns e (reads w) 1 |}.
Proof.
  intros Hheld Hexp. cbn [mtx_timedlock].
  rewrite (mtx_trylock_held e w Hheld).
  change (thrd_busy =? thrd_success) with false. cbv iota.
  unfold Mtx.impl_abs2relmsec, timespec_get. cbn [reads calls].
  unfold expired_at in Hexp. rewrite Hexp.
  unfold thrd_yield, SwitchToThread. cbn.
  rewrite <- !app_assoc. reflexivity.
Qed.

Lemma mtx_timedlock_acquires fuel e ts w :
  not_held_by_other e w ->
  mtx_timedlock (S fuel) e ts w = (Some thrd_success, snd (mtx_trylock e w)).
Proof.
  intros H. cbn [mtx_timedlock].
  destruct (mtx_trylock_free e w H) as (Hr & _).
  destruct (mtx_trylock e w) as [r w1]. simpl in *. subst r. reflexivity.
Qed.

Lemma mtx_timedlock_expires fuel e ts w :
  held_by_other e w -> expired_at e ts (reads w) = true ->
  mtx_timedlock (S fuel) e ts w =
    (Some thrd_timedout,
     {| OwningThread := owner_now e w; RecursionCount := RecursionCount w;
        tries := S (tries w); reads := S (reads w);
        calls := calls w ++ [CallTryEnterCriticalSection false;
                             CallTimespecGet (clock e (reads w))] |}).
Proof.
  intros Hheld Hexp. cbn [mtx_timedlock].
  rewrite (mtx_trylock_held e w Hheld).
  change (thrd_busy =? thrd_success) with false. cbv iota.
  unfold Mtx.impl_abs2relmsec, timespec_get. cbn [reads calls].
  unfold expired_at in Hexp. rewrite Hexp. cbn.
  rewrite <- !app_assoc. reflexivity.
Qed.

(** [n] turns in which another thread holds the section and time is left. *)
Lemma mtx_timedlock_turns n :
  forall fuel e ts w,
    OwningThread w <> self e ->
    (forall i, (i < n)%nat ->
       busy_at e (tries w + i) = true /\
       expired_at e ts (reads w + i) = false) ->
    exists w',
      mtx_timedlock (n + fuel) e ts w = mtx_timedlock fuel e ts w' /\
      OwningThread w' <> self e /\
      tries w' = (tries w + n)%nat /\ reads w' = (reads w + n)%nat /\
      calls w' = calls w ++ failed_turns e (reads w) n.
Proof.
  induction n as [|n IH]; intros fuel e ts w Hown Hturns.
  - exists w. rewrite !Nat.add_0_r, app_nil_r. auto.
  - destruct (Hturns 0%nat ltac:(lia)) as [Hb He].
    rewrite Nat.add_0_r in Hb, He.
    assert (Hheld : held_by_other e w) by (apply held_by_other_busy; assumption).
    change (S n + fuel)%nat with (S (n + fuel)).
    rewrite (mtx_timedlock_turn _ e ts w Hheld He).
    set (w1 := {| OwningThread := owner_now e w;
                  RecursionCount := RecursionCount w;
                  tries := S (tries w); reads := S (reads w);
                  calls := calls w ++ failed_turns e (reads w) 1 |}).
    destruct (IH fuel e ts w1) as (w' & Hrun & Hown' & Ht & Hr & Hc).
    + apply Hheld.
    + intros i Hi. cbn [tries reads w1].
      replace (S (tries w) + i)%nat with (tries w + S i)%nat by lia.
      replace (S (reads w) + i)%nat with (reads w + S i)%nat by lia.
      apply Hturns. lia.
    + exists w'. cbn [tries reads calls w1] in Ht, Hr, Hc.
      repeat split; try assumption; try lia.
      rewrite Hc. cbn [failed_turns]. rewrite <- !app_assoc. reflexivity.
Qed.

(** C2: [mtx_timedlock] is a poll loop.  While another thread holds the
    section and the conversion of the deadline leaves time, a turn makes
    one [mtx_trylock], reads the clock and yields.  After [n] such turns
    the call returns [thrd_success], owning the section, if the next
    attempt finds the section free, and [thrd_timedout] if that attempt
    fails and the remaining time read after it is zero; [n + 1] turns of
    the loop are enough for the result.  In particular, when another thread
    holds the mutex and the deadline is not after the clock reading, the
    call returns [thrd_timedout] after one attempt and one clock read,
    without a single yield. *)
Theorem mtx_timedlock_poll_loop :
  (forall e ts w n fuel,
     OwningThread w <> self e ->
     (forall i, (i < n)%nat ->
        busy_at e (tries w + i) = true /\
        expired_at e ts (reads w + i) = false) ->
     let r := mtx_timedlock (n + S fuel) e ts w in
     (busy_at e (tries w + n) = false ->
        fst r = Some thrd_success /\ OwningThread (snd r) = self e /\
        calls (snd r) =
          calls w ++ failed_turns e (reads w) n
                  ++ [CallTryEnterCriticalSection true]) /\
     (busy_at e (tries w + n) = true ->
      expired_at e ts (reads w + n) = true ->
        fst r = Some thrd_timedout /\ OwningThread (snd r) <> self e /\
        calls (snd r) =
          calls w ++ failed_turns e (reads w) n
                  ++ [CallTryEnterCriticalSection false;
                      CallTimespecGet (clock e (reads w + n))])) /\
  (forall e ts w fuel,
     held_by_other e w ->
     impl_timespec2msec ts <= impl_timespec2msec (clock e (reads w)) ->
     let r := mtx_timedlock (S fuel) e ts w in
     fst r = Some thrd_timedout /\
     calls (snd r) =
       calls w ++ [CallTryEnterCriticalSection false;
                   CallTimespecGet (clock e (reads w))]).
Proof.
  split.
  - intros e ts w n fuel Hown Hturns r.
    destruct (mtx_timedlock_turns n (S fuel) e ts w Hown Hturns)
      as (w' & Hrun & Hown' & Ht & Hr & Hc).
    subst r. rewrite Hrun, <- Ht, <- Hr. split.
    + intros Hfree.
      pose proof (not_held_by_other_free e w' Hown' Hfree) as Hn.
      rewrite (mtx_timedlock_acquires fuel e ts w' Hn).
      destruct (mtx_trylock_free e w' Hn) as (_ & Ho & Hl).
      cbn [fst snd]. rewrite Hl, Hc, <- app_assoc. auto.
    + intros Hbusy Hexp.
      assert (Hheld : held_by_other e w') by (apply held_by_other_busy; assumption).
      rewrite (mtx_timedlock_expires fuel e ts w' Hheld Hexp).
      cbn [fst snd OwningThread calls]. rewrite Hc, <- app_assoc.
      repeat split. apply Hheld.
  - intros e ts w fuel Hheld Hpast r. subst r.
    rewrite (mtx_timedlock_expires fuel e ts w Hheld).
    + cbn [fst snd calls]. auto.
    + unfold expired_at. rewrite past_deadline_expired by assumption.
      reflexivity.
Qed.

Lemma mtx_timedlock_poll_loop_witness :
  (fst (mtx_timedlock 4 contended {| tv_sec := 200; tv_nsec := 0 |} idle)
     = Some thrd_success /\
   fst (mtx_timedlock 4 stuck {| tv_sec := 100; tv_nsec := 25000000 |} idle)
     = Some thrd_timedout) /\
  fst (mtx_timedlock 1 stuck {| tv_sec := 99; tv_nsec := 0 |} idle)
    = Some thrd_timedout.
Proof.
  destruct mtx_timedlock_poll_loop as [Hloop Hpast].
  assert (Hturns : forall e, holder e = holder stuck \/ holder e = holder contended ->
            self e = 1 -> clock e = clock stuck ->
            forall ts, ts = {| tv_sec := 200; tv_nsec := 0 |} \/
                       ts = {| tv_sec := 100; tv_nsec := 25000000 |} ->
            forall i, (i < 3)%nat ->
              busy_at e (tries idle + i) = true /\
              expired_at e ts (reads idle + i) = false).
  { intros e He Hs Hc ts Hts i Hi. unfold busy_at, expired_at.
    rewrite Hs, Hc.
    destruct He as [-> | ->], Hts as [-> | ->];
      destruct i as [|[|[|i]]]; try lia; vm_compute; auto. }
  split; [split|].
  - destruct (Hloop contended {| tv_sec := 200; tv_nsec := 0 |} idle 3%nat 0%nat)
      as [Hs _].
    + vm_compute. congruence.
    + apply Hturns; auto.
    + apply Hs. vm_compute. reflexivity.
  - destruct (Hloop stuck {| tv_sec := 100; tv_nsec := 25000000 |} idle 3%nat 0%nat)
      as [_ Ht].
    + vm_compute. congruence.
    + apply Hturns; auto.
    + apply Ht; vm_compute; reflexivity.
  - apply (Hpast stuck {| tv_sec := 99; tv_nsec := 0 |} idle 0%nat).
    + vm_compute. split; congruence.
    + vm_compute. congruence.
Defined.

(** C10: [mtx_timedlock] makes its first [mtx_trylock] before it ever looks
    at the deadline.  When no other thread holds the mutex the call returns
    [thrd_success] and the caller owns the mutex, whatever the deadline is,
    a deadline in the past included: the only native call made is the
    successful attempt, and the clock is not read.  Whenever the call
    returns [thrd_timedout], its first attempt had failed. *)
Theorem mtx_timedlock_tries_first e ts w fuel :
  (not_held_by_other e w ->
     let r := mtx_timedlock (S fuel) e ts w in
     fst r = Some thrd_success /\ OwningThread (snd r) = self e /\
     calls (snd r) = calls w ++ [CallTryEnterCriticalSection true]) /\
  (fst (mtx_timedlock fuel e ts w) = Some thrd_timedout ->
     fst (mtx_trylock e w) = thrd_busy /\ held_by_other e w).
Proof.
  split.
  - intros Hn r. subst r. rewrite (mtx_timedlock_acquires fuel e ts w Hn).
    cbn [fst snd]. destruct (mtx_trylock_free e w Hn) as (_ & Ho & Hl). auto.
  - intros Hout.
    assert (Hdec : not_held_by_other e w \/ held_by_other e w).
    { unfold not_held_by_other, held_by_other.
      destruct (Z.eq_dec (owner_now e w) 0), (Z.eq_dec (owner_now e w) (self e));
        auto. }
    destruct Hdec as [Hn|Hheld].
    + destruct fuel as [|fuel]; [discriminate Hout|].
      rewrite (mtx_timedlock_acquires fuel e ts w Hn) in Hout.
      discriminate Hout.
    + rewrite (mtx_trylock_held e w Hheld). auto.
Qed.

Lemma mtx_timedlock_tries_first_witness :
  fst (mtx_timedlock 1 contended {| tv_sec := 0; tv_nsec := 0 |}
         (snd (mtx_timedlock 4 contended {| tv_sec := 200; tv_nsec := 0 |} idle)))
    = Some thrd_success /\
  fst (mtx_trylock stuck idle) = thrd_busy.
Proof.
  split.
  - apply (mtx_timedlock_tries_first contended {| tv_sec := 0; tv_nsec := 0 |}
             (snd (mtx_timedlock 4 contended {| tv_sec := 200; tv_nsec := 0 |} idle))
             0%nat).
    vm_compute. auto.
  - apply (mtx_timedlock_tries_first stuck {| tv_sec := 99; tv_nsec := 0 |}
             idle 1%nat).
    vm_compute. reflexivity.
Defined.

End MtxFacts.

(** ** Thread functions *)

Section ThrdFacts.

Import Time Thrd.

Lemma CloseHandle_released thr w : released thr (CloseHandle thr w).
Proof.
  split; cbn [handles calls CloseHandle].
  - rewrite <- list_elem_of_In, list_elem_of_filter. tauto.
  - apply in_or_app. right. left. reflexivity.
Qed.

(** Once the wait has succeeded, [thrd_join] closes the handle on both of
    its remaining return paths, and stores the exit code on the one that
    returns [thrd_success] with a non-null [res]. *)
Lemma thrd_join_after_wait e thr res w :
  wait_result e = WAIT_OBJECT_0 ->
  released thr (snd (thrd_join e thr res w)) /\
  (forall old, res = Some old ->
     match exit_code e with
     | Some code =>
         fst (thrd_join e thr res w) = (thrd_success, Some (to_int code))
     | None => fst (thrd_join e thr res w) = (thrd_error, res)
     end) /\
  (res = None -> fst (thrd_join e thr res w) = (thrd_success, None)).
Proof.
  intros Hw. unfold thrd_join, WaitForSingleObject, GetExitCodeThread.
  rewrite Hw. change (negb (WAIT_OBJECT_0 =? WAIT_OBJECT_0)) with false.
  cbv iota. split; [|split].
  - destruct res; [destruct (exit_code e)|]; apply CloseHandle_released.
  - intros old ->. destruct (exit_code e); reflexivity.
  - intros ->. reflexivity.
Qed.

(** C3 (behaviour of the code where the claim fails): when
    [WaitForSingleObject] returns anything but [WAIT_OBJECT_0], [thrd_join]
    returns [thrd_error] straight away: the only native call made is the
    wait, [*res] is untouched, no [CloseHandle] is issued and a handle that
    was open stays open. *)
Theorem thrd_join_failed_wait_keeps_handle e thr res w :
  wait_result e <> WAIT_OBJECT_0 ->
  thrd_join e thr res w =
    (thrd_error, res,
     {| handles := handles w;
        calls := calls w ++ [CallWaitForSingleObject thr INFINITE] |}) /\
  (In thr (handles w) -> ~ released thr (snd (thrd_join e thr res w))).
Proof.
  intros Hw.
  assert (E : thrd_join e thr res w =
    (thrd_error, res,
     {| handles := handles w;
        calls := calls w ++ [CallWaitForSingleObject thr INFINITE] |})).
  { unfold thrd_join, WaitForSingleObject.
    destruct (Z.eqb_spec (wait_result e) WAIT_OBJECT_0); [contradiction|].
    reflexivity. }
  split; [exact E|].
  intros Hin [Hgone _]. rewrite E in Hgone. apply Hgone. exact Hin.
Qed.

Lemma thrd_join_failed_wait_keeps_handle_witness :
  thrd_join wait_fails 7 (Some 0) one_thread =
    (thrd_error, Some 0,
     {| handles := [7]; calls := [CallWaitForSingleObject 7 INFINITE] |}) /\
  ~ released 7 (snd (thrd_join wait_fails 7 (Some 0) one_thread)).
Proof.
  destruct (thrd_join_failed_wait_keeps_handle wait_fails 7 (Some 0) one_thread)
    as [E H].
  - vm_compute. congruence.
  - split; [exact E|]. apply H. simpl. auto.
Defined.

(** C8, as stated, fails: compiled with [NDEBUG], [thrd_sleep] called with
    a non-null [remaining] sleeps for one second and returns 0, exactly as
    with a null [remaining]: the request is ignored, not rejected. *)
Lemma thrd_sleep_ndebug_ignores_remaining :
  thrd_sleep true (Some {| tv_sec := 1; tv_nsec := 0 |})
             (Some {| tv_sec := 0; tv_nsec := 0 |}) one_thread
    = Returns (0, {| handles := [7]; calls := [CallSleep 1000] |}) /\
  thrd_sleep true (Some {| tv_sec := 1; tv_nsec := 0 |})
             (Some {| tv_sec := 0; tv_nsec := 0 |}) one_thread
    = thrd_sleep true (Some {| tv_sec := 1; tv_nsec := 0 |}) None one_thread.
Proof.
  split; reflexivity.
Qed.

(** C8, amended: compiled without [NDEBUG], [thrd_sleep] called with a
    non-null [remaining] stops at a failed assertion, whatever [time_point]
    is, and never reaches [Sleep]: the request is rejected.  Compiled with
    [NDEBUG] the assertion is gone and [remaining] is ignored: the call does
    what it does with a null [remaining]. *)
Theorem thrd_sleep_remaining_rejected time_point r tp w :
  thrd_sleep false time_point (Some r) w = AssertionFailed /\
  thrd_sleep true (Some tp) (Some r) w = thrd_sleep true (Some tp) None w /\
  thrd_sleep false (Some tp) None w = thrd_sleep true (Some tp) None w.
Proof.
  split; [destruct time_point|split]; reflexivity.
Qed.

End ThrdFacts.

(** ** Thread-specific storage *)

Section TssFacts.

Import Tss.

Lemma first_free_bounds w n :
  forall i,
    (i <= first_free w i n <= i + n)%nat /\
    (forall j, (i <= j < first_free w i n)%nat -> dtor (entry_at w j) <> 0) /\
    ((first_free w i n < i + n)%nat ->
       dtor (entry_at w (first_free w i n)) = 0).
Proof.
  induction n as [|n IH]; intros i; cbn [first_free].
  - split; [lia|]. split; intros; lia.
  - destruct (Z.eqb_spec (dtor (entry_at w i)) 0) as [Hz|Hnz].
    + split; [lia|]. split; [intros; lia|]. intros _. exact Hz.
    + destruct (IH (S i)) as (Hb & Hbefore & Hat).
      split; [lia|]. split.
      * intros j Hj. destruct (Nat.eq_dec j i) as [->|Hne]; [assumption|].
        apply Hbefore. lia.
      * intros Hlt. apply Hat. lia.
Qed.

Lemma first_free_found w i :
  first_free_is w i ->
  first_free w 0 EMULATED_THREADS_TSS_DTOR_SLOTNUM = i.
Proof.
  intros (Hi & Hz & Hbefore).
  destruct (first_free_bounds w EMULATED_THREADS_TSS_DTOR_SLOTNUM 0%nat)
    as (Hb & Hnz & Hat).
  set (j := first_free w 0 EMULATED_THREADS_TSS_DTOR_SLOTNUM) in *.
  destruct (Nat.lt_trichotomy j i) as [Hlt|[Heq|Hgt]]; [|assumption|].
  - exfalso. apply (Hbefore j Hlt). apply Hat. lia.
  - exfalso. apply (Hnz i); [lia|assumption].
Qed.

Lemma first_free_none w :
  tbl_full w ->
  first_free w 0 EMULATED_THREADS_TSS_DTOR_SLOTNUM
    = EMULATED_THREADS_TSS_DTOR_SLOTNUM.
Proof.
  intros [Hlen Hall].
  destruct (first_free_bounds w EMULATED_THREADS_TSS_DTOR_SLOTNUM 0%nat)
    as (Hb & _ & Hat).
  set (j := first_free w 0 EMULATED_THREADS_TSS_DTOR_SLOTNUM) in *.
  destruct (Nat.eq_dec j EMULATED_THREADS_TSS_DTOR_SLOTNUM) as [|Hne];
    [assumption|].
  exfalso. assert (Hj : (j < length (impl_tss_dtor_tbl w))%nat) by lia.
  destruct (lookup_lt_is_Some_2 _ _ Hj) as [en Hen].
  rewrite Forall_lookup in Hall. apply (Hall j en Hen).
  specialize (Hat ltac:(lia)). unfold entry_at in Hat. rewrite Hen in Hat.
  exact Hat.
Qed.

Lemma first_free_same_tbl w w' n :
  impl_tss_dtor_tbl w' = impl_tss_dtor_tbl w ->
  forall i, first_free w' i n = first_free w i n.
Proof.
  intros Htbl. induction n as [|n IH]; intros i; cbn [first_free];
    [reflexivity|].
  unfold entry_at. rewrite Htbl, IH. reflexivity.
Qed.

(** C9: [tss_delete] releases the native slot and nothing else: the
    destructor table after the call is the table before it, whatever the
    slot and the table, entries registered for that slot included; the
    slot values and the record of destructor calls are untouched. *)
Theorem tss_delete_keeps_table k w :
  impl_tss_dtor_tbl (tss_delete k w) = impl_tss_dtor_tbl w /\
  ~ In k (tls_in_use (tss_delete k w)) /\
  calls (tss_delete k w) = calls w ++ [CallTlsFree k] /\
  tls_value (tss_delete k w) = tls_value w /\
  dtor_calls (tss_delete k w) = dtor_calls w.
Proof.
  unfold tss_delete, TlsFree. cbn. repeat split.
  rewrite <- list_elem_of_In, list_elem_of_filter. tauto.
Qed.

Lemma TlsAlloc_tbl w :
  impl_tss_dtor_tbl (snd (TlsAlloc w)) = impl_tss_dtor_tbl w.
Proof. unfold TlsAlloc. destruct (tls_next w); reflexivity. Qed.

(** C5, as stated, fails: the table of a fresh process has a free entry (its
    first), yet [tss_create] with a non-null destructor returns
    [thrd_error] when [TlsAlloc] has no index left. *)
Lemma tss_create_free_entry_yet_error :
  first_free_is exhausted 0 /\
  fst (fst (tss_create 4096 exhausted)) = thrd_error /\
  fst (fst (tss_create 4096 exhausted)) <> thrd_success.
Proof.
  split; [|split].
  - split; [|split].
    + unfold EMULATED_THREADS_TSS_DTOR_SLOTNUM. lia.
    + reflexivity.
    + intros j Hj. lia.
  - reflexivity.
  - vm_compute. congruence.
Qed.

(** C5, amended: [tss_create] with a non-null destructor, when all 64
    entries of the table are taken, returns [thrd_error], leaves the table
    as it was and frees the slot it had just allocated ([TlsAlloc] then
    [TlsFree] on the same index); when the table has a free entry and
    [TlsAlloc] handed out an index, the pair (index, destructor) is written
    to the first free entry, the other entries are kept, and the call
    returns [thrd_success] with the index in [*key]. *)
Theorem tss_create_registers d w :
  d <> 0 ->
  (tbl_full w ->
     let r := tss_create d w in
     fst (fst r) = thrd_error /\
     impl_tss_dtor_tbl (snd r) = impl_tss_dtor_tbl w /\
     ~ In (snd (fst r)) (tls_in_use (snd r)) /\
     calls (snd r) =
       calls w ++ [CallTlsAlloc (snd (fst r)); CallTlsFree (snd (fst r))]) /\
  (forall i k rest,
     length (impl_tss_dtor_tbl w) = EMULATED_THREADS_TSS_DTOR_SLOTNUM ->
     first_free_is w i ->
     tls_next w = k :: rest -> k <> TLS_OUT_OF_INDEXES ->
     let r := tss_create d w in
     fst r = (thrd_success, k) /\
     impl_tss_dtor_tbl (snd r)
       = <[i := {| key := k; dtor := d |}]> (impl_tss_dtor_tbl w) /\
     impl_tss_dtor_tbl (snd r) !! i = Some {| key := k; dtor := d |} /\
     In k (tls_in_use (snd r))).
Proof.
  intros Hd. split.
  - intros Hfull r. subst r. unfold tss_create.
    pose proof (TlsAlloc_tbl w) as Htbl.
    assert (Hcalls : calls (snd (TlsAlloc w))
                     = calls w ++ [CallTlsAlloc (fst (TlsAlloc w))]).
    { unfold TlsAlloc. destruct (tls_next w); reflexivity. }
    destruct (TlsAlloc w) as [k w1]. cbn [fst snd] in Htbl, Hcalls.
    destruct (Z.eqb_spec d 0); [contradiction|]. cbn [negb].
    unfold impl_tss_dtor_register.
    rewrite (first_free_same_tbl w w1 _ Htbl), (first_free_none w Hfull).
    rewrite Nat.eqb_refl. cbn.
    repeat split.
    + exact Htbl.
    + rewrite <- list_elem_of_In, list_elem_of_filter. tauto.
    + rewrite Hcalls, <- app_assoc. reflexivity.
  - intros i k rest Hlen Hfree Hnext Hk r. subst r. unfold tss_create, TlsAlloc.
    rewrite Hnext.
    destruct (Z.eqb_spec d 0); [contradiction|]. cbn [negb].
    unfold impl_tss_dtor_register.
    rewrite (first_free_same_tbl w) by reflexivity.
    rewrite (first_free_found w i Hfree).
    destruct Hfree as (Hi & _ & _).
    destruct (Nat.eqb_spec i EMULATED_THREADS_TSS_DTOR_SLOTNUM); [lia|].
    cbn. destruct (Z.eqb_spec k TLS_OUT_OF_INDEXES); [contradiction|].
    cbn. repeat split.
    + apply list_lookup_insert_eq. lia.
    + auto.
Qed.

Lemma tss_create_registers_witness :
  fst (fst (tss_create 4096 crowded)) = thrd_error /\
  tss_create 4096 fresh =
    (thrd_success, 3,
     {| impl_tss_dtor_tbl := <[0%nat := {| key := 3; dtor := 4096 |}]> empty_tbl;
        tls_in_use := [3]; tls_next := [4; 5];
        tls_value := tls_value (snd (tss_create 4096 fresh));
        dtor_calls := []; calls := [CallTlsAlloc 3] |}).
Proof.
  destruct (tss_create_registers 4096 crowded) as [Hfull _]; [lia|].
  destruct (tss_create_registers 4096 fresh) as [_ Hfree]; [lia|].
  split.
  - apply Hfull. split; [reflexivity|].
    unfold crowded, EMULATED_THREADS_TSS_DTOR_SLOTNUM. cbn.
    repeat constructor; cbn; lia.
  - destruct (Hfree 0%nat 3 [4; 5]) as (Hr & Ht & _ & _).
    + reflexivity.
    + split; [|split].
      * unfold EMULATED_THREADS_TSS_DTOR_SLOTNUM. lia.
      * reflexivity.
      * intros j Hj. lia.
    + reflexivity.
    + vm_compute. congruence.
    + reflexivity.
Defined.

Lemma tss_get_after_set k val w :
  In k (tls_in_use w) ->
  fst (tss_set k val w) = thrd_success /\
  tss_get k (snd (tss_set k val w)) = val.
Proof.
  intros Hin. unfold tss_set, TlsSetValue, tss_get, TlsGetValue.
  rewrite bool_decide_eq_true_2 by (apply list_elem_of_In; exact Hin).
  cbn. rewrite Z.eqb_refl. auto.
Qed.

Section SweepFacts.

Variable user : Z -> Z -> world -> world.
Hypothesis user_quiet : quiet user.

Lemma visit_quiet i w :
  impl_tss_dtor_tbl (visit user i w) = impl_tss_dtor_tbl w /\
  tls_value (visit user i w) = tls_value w /\
  dtor_calls (visit user i w)
    = dtor_calls w ++ due (tls_value w) (entry_at w i).
Proof.
  unfold visit, due, tss_get, TlsGetValue.
  destruct (Z.eqb_spec (dtor (entry_at w i)) 0); cbn [negb].
  - rewrite app_nil_r. auto.
  - destruct (Z.eqb_spec (tls_value w (key (entry_at w i))) 0); cbn [negb].
    + rewrite app_nil_r. auto.
    + unfold call_dtor.
      match goal with
      | |- context [user ?d ?v ?w0] =>
          destruct (user_quiet d v w0) as (Ht & Hv & Hc)
      end.
      rewrite Ht, Hv, Hc. auto.
Qed.

Lemma sweep_from_quiet n :
  forall i w,
    impl_tss_dtor_tbl (sweep_from user i n w) = impl_tss_dtor_tbl w /\
    tls_value (sweep_from user i n w) = tls_value w /\
    dtor_calls (sweep_from user i n w)
      = dtor_calls w
        ++ flat_map (due (tls_value w)) (map (entry_at w) (seq i n)).
Proof.
  induction n as [|n IH]; intros i w; cbn [sweep_from seq map flat_map].
  - rewrite app_nil_r. auto.
  - destruct (visit_quiet i w) as (Ht & Hv & Hc).
    destruct (IH (S i) (visit user i w)) as (Ht' & Hv' & Hc').
    rewrite Ht', Hv', Hc', Ht, Hv, Hc, <- app_assoc.
    repeat split. do 3 f_equal.
    apply map_ext. intros j. unfold entry_at. rewrite Ht. reflexivity.
Qed.

End SweepFacts.




Lemma tbl_of_length done :
  (length done <= EMULATED_THREADS_TSS_DTOR_SLOTNUM)%nat ->
  length (tbl_of done) = EMULATED_THREADS_TSS_DTOR_SLOTNUM.
Proof.
  intros H. unfold tbl_of.
  rewrite length_app, length_map, length_replicate. lia.
Qed.

Lemma tbl_of_first_free done w :
  impl_tss_dtor_tbl w = tbl_of done ->
  Forall (fun r => snd r <> 0) done ->
  (length done < EMULATED_THREADS_TSS_DTOR_SLOTNUM)%nat ->
  first_free_is w (length done).
Proof.
  intros Ht Hall Hlen. unfold first_free_is, entry_at. rewrite Ht. unfold tbl_of.
  split; [exact Hlen|]. split.
  - rewrite lookup_app_r by (rewrite length_map; lia).
    rewrite length_map, Nat.sub_diag.
    destruct (EMULATED_THREADS_TSS_DTOR_SLOTNUM - length done)%nat eqn:E;
      [lia|]. reflexivity.
  - intros j Hj. rewrite lookup_app_l by (rewrite length_map; lia).
    change (map ?f ?l) with (f <$> l). rewrite list_lookup_fmap.
    destruct (lookup_lt_is_Some_2 done j Hj) as [r Hr]. rewrite Hr. cbn.
    rewrite Forall_lookup in Hall. exact (Hall j r Hr).
Qed.

Lemma register_next done k d w :
  impl_tss_dtor_tbl w = tbl_of done ->
  Forall (fun r => snd r <> 0) done ->
  (length done < EMULATED_THREADS_TSS_DTOR_SLOTNUM)%nat ->
  impl_tss_dtor_register k d w = (0, set_tbl (tbl_of (done ++ [(k, d)])) w).
Proof.
  intros Ht Hall Hlen. unfold impl_tss_dtor_register.
  rewrite (first_free_found w _ (tbl_of_first_free done w Ht Hall Hlen)).
  destruct (Nat.eqb_spec (length done) EMULATED_THREADS_TSS_DTOR_SLOTNUM);
    [lia|].
  do 2 f_equal. rewrite Ht. unfold tbl_of.
  rewrite insert_app_r_alt by (rewrite length_map; lia).
  rewrite length_map, Nat.sub_diag, length_app, map_app. cbn [length map].
  replace (EMULATED_THREADS_TSS_DTOR_SLOTNUM - length done)%nat
    with (S (EMULATED_THREADS_TSS_DTOR_SLOTNUM - (length done + 1)))%nat by lia.
  cbn. rewrite <- app_assoc. reflexivity.
Qed.






End TssFacts.

(** ** The emulated [call_once] *)

Section OnceFacts.

Import Once.
Local Open Scope nat_scope.

Lemma count_insert f (l : list pc) :
  forall i p q,
    l !! i = Some p ->
    count f (<[i := q]> l) + (if f p then 1 else 0)
      = count f l + (if f q then 1 else 0).
Proof.
  induction l as [|x l IH]; intros i p q Hi; [discriminate Hi|].
  destruct i as [|i].
  - change (Some x = Some p) in Hi. injection Hi as ->.
    change (<[0 := q]> (p :: l)) with (q :: l). cbn [count].
    destruct (f p), (f q); lia.
  - change (l !! i = Some p) in Hi. specialize (IH i p q Hi). revert IH.
    change (<[S i := q]> (x :: l)) with (x :: <[i := q]> l). cbn [count].
    destruct (f p), (f q), (f x); lia.
Qed.

Lemma count_lookup f (l : list pc) :
  forall i p, l !! i = Some p -> f p = true -> 1 <= count f l.
Proof.
  induction l as [|x l IH]; intros i p Hi Hp; [discriminate Hi|].
  destruct i as [|i]; cbn in Hi |- *.
  - injection Hi as ->. rewrite Hp. lia.
  - specialize (IH i p Hi Hp). revert IH. destruct (f x); lia.
Qed.

Lemma count_le f g (l : list pc) :
  (forall p, f p = true -> g p = true) -> count f l <= count g l.
Proof.
  intros Hfg. induction l as [|x l IH]; cbn; [lia|].
  specialize (Hfg x). revert Hfg. destruct (f x), (g x); intros Hfg; lia.
Qed.

Lemma count_replicate f n p :
  count f (replicate n p) = if f p then n else 0.
Proof.
  induction n as [|n IH]; cbn; [destruct (f p); reflexivity|].
  rewrite IH. destruct (f p); lia.
Qed.

Lemma init_inv n : inv (init n).
Proof.
  left. cbn. rewrite count_replicate. auto.
Qed.

(** The facts about the five counts that a step of a caller standing at
    [p] and moving to [q] needs. *)
Ltac count_facts l i p q Hi :=
  pose proof (count_insert claimed l i p q Hi);
  pose proof (count_insert entered l i p q Hi);
  pose proof (count_insert done_func l i p q Hi);
  pose proof (count_insert returned l i p q Hi);
  pose proof (count_insert arrived l i p q Hi);
  pose proof (count_le entered claimed l ltac:(intros []; auto));
  pose proof (count_le done_func entered l ltac:(intros []; auto));
  pose proof (count_le claimed arrived l ltac:(intros []; auto));
  pose proof (count_le returned arrived l ltac:(intros []; auto));
  pose proof (count_le entered claimed (<[i := q]> l) ltac:(intros []; auto));
  pose proof (count_le claimed arrived (<[i := q]> l) ltac:(intros []; auto)).

Lemma step_inv i s : inv s -> inv (step i s).
Proof.
  intros Hinv. unfold step.
  destruct (callers s !! i) as [p|] eqn:Hi; [|exact Hinv].
  destruct p; unfold inv in *;
    cbn [InterlockedCompareExchangePointer InterlockedExchangePointer
         at_pc status started finished callers].
  - (* AtExchange *)
    unfold InterlockedCompareExchangePointer.
    destruct (Z.eqb_spec (status s) 0) as [Hz|Hnz];
      cbn [status started finished callers].
    + count_facts (callers s) i AtExchange AtCall Hi. cbn in *. lia.
    + count_facts (callers s) i AtExchange AtTest Hi. cbn in *. lia.
  - (* AtCall *)
    count_facts (callers s) i AtCall InFunc Hi.
    pose proof (count_lookup claimed _ _ _ Hi eq_refl). cbn in *. lia.
  - (* InFunc *)
    count_facts (callers s) i InFunc AtPublish Hi.
    pose proof (count_lookup claimed _ _ _ Hi eq_refl).
    pose proof (count_lookup entered _ _ _ Hi eq_refl). cbn in *. lia.
  - (* AtPublish *)
    count_facts (callers s) i AtPublish Returned Hi.
    pose proof (count_lookup claimed _ _ _ Hi eq_refl).
    pose proof (count_lookup entered _ _ _ Hi eq_refl).
    pose proof (count_lookup done_func _ _ _ Hi eq_refl). cbn in *. lia.
  - (* AtTest *)
    pose proof (count_lookup arrived _ _ _ Hi eq_refl).
    destruct (Z.eqb_spec (status s) 1) as [H1|Hn1].
    + count_facts (callers s) i AtTest AtYield Hi. cbn in *. lia.
    + count_facts (callers s) i AtTest Returned Hi. cbn in *. lia.
  - (* AtYield *)
    count_facts (callers s) i AtYield AtTest Hi. cbn in *. lia.
  - (* Returned *)
    exact Hinv.
Qed.

Lemma run_inv sched : forall s, inv s -> inv (run sched s).
Proof.
  induction sched as [|i sched IH]; intros s Hinv; [exact Hinv|].
  apply IH, step_inv, Hinv.
Qed.

Lemma run_app a b s : run (a ++ b) s = run b (run a s).
Proof. unfold run. apply fold_left_app. Qed.

(** A caller that arrives once the flag is completed loses the exchange. *)
Lemma step_late_exchange i l1 l2 st fi :
  i = length l1 ->
  step i {| status := 2; started := st; finished := fi;
            callers := l1 ++ AtExchange :: l2 |} =
    {| status := 2; started := st; finished := fi;
       callers := l1 ++ AtTest :: l2 |}.
Proof.
  intros ->. unfold step. cbn [callers status started finished].
  rewrite list_lookup_middle by reflexivity.
  unfold InterlockedCompareExchangePointer. cbn [Z.eqb].
  f_equal. rewrite insert_app_r_alt, Nat.sub_diag by lia. reflexivity.
Qed.

(** Its test of the flag fails at once and it returns. *)
Lemma step_late_test i l1 l2 st fi :
  i = length l1 ->
  step i {| status := 2; started := st; finished := fi;
            callers := l1 ++ AtTest :: l2 |} =
    {| status := 2; started := st; finished := fi;
       callers := l1 ++ Returned :: l2 |}.
Proof.
  intros ->. unfold step. cbn [callers status started finished].
  rewrite list_lookup_middle by reflexivity.
  cbn [Z.eqb]. unfold at_pc. cbn [callers status started finished]. f_equal.
  rewrite insert_app_r_alt, Nat.sub_diag by lia. reflexivity.
Qed.

Lemma late_callers_return m :
  forall k st fi,
    run (flat_map (fun i => [i; i]) (seq k m))
        {| status := 2; started := st; finished := fi;
           callers := replicate k Returned ++ replicate m AtExchange |}
    = {| status := 2; started := st; finished := fi;
         callers := replicate (k + m) Returned |}.
Proof.
  induction m as [|m IH]; intros k st fi.
  - cbn [seq flat_map run fold_left replicate].
    rewrite app_nil_r, Nat.add_0_r. reflexivity.
  - cbn [seq flat_map replicate]. rewrite run_app.
    change (run [k; k] ?s) with (step k (step k s)).
    rewrite step_late_exchange by (rewrite length_replicate; reflexivity).
    rewrite step_late_test by (rewrite length_replicate; reflexivity).
    rewrite (cons_middle Returned), app_assoc, <- replicate_S_end.
    rewrite IH. do 2 f_equal. lia.
Qed.

Lemma in_turn_all_return n :
  1 <= n ->
  run (in_turn n) (init n) =
    {| status := 2; started := 1; finished := 1;
       callers := replicate n Returned |}.
Proof.
  intros Hn. destruct n as [|m]; [lia|].
  unfold in_turn. rewrite run_app.
  replace (S m - 1) with m by lia.
  change (run [0; 0; 0; 0] (init (S m)))
    with {| status := 2; started := 1; finished := 1;
            callers := replicate 1 Returned ++ replicate m AtExchange |}.
  apply late_callers_return.
Qed.

(** C1: [n] callers race on a flag that starts as [ONCE_FLAG_INIT], their
    atomic steps interleaved in any order [sched].  In every state they
    reach, [func] has been entered at most once, at most one caller (the
    winner of the compare-and-exchange) stands between the exchange and
    the marking of the flag, and a caller that has returned, winner or
    loser, finds that [func] was entered exactly once and has returned,
    the flag being marked completed.  And the callers do all return: when
    the winner runs first and the others follow, every caller has returned
    and [func] has run once. *)
Theorem call_once_exactly_once n sched :
  let s := run sched (init n) in
  started s <= 1 /\ finished s <= started s /\
  count claimed (callers s) <= 1 /\
  (forall i, callers s !! i = Some Returned ->
     started s = 1 /\ finished s = 1 /\ status s = 2%Z) /\
  (1 <= n ->
     run (in_turn n) (init n) =
       {| status := 2; started := 1; finished := 1;
          callers := replicate n Returned |}).
Proof.
  intros s. assert (Hinv : inv s) by apply run_inv, init_inv.
  clearbody s. unfold inv in Hinv.
  pose proof (count_le entered claimed (callers s) ltac:(intros []; auto)).
  pose proof (count_le done_func entered (callers s) ltac:(intros []; auto)).
  pose proof (count_le claimed arrived (callers s) ltac:(intros []; auto)).
  split; [lia|]. split; [lia|]. split; [lia|]. split.
  - intros i Hi.
    pose proof (count_lookup returned _ _ _ Hi eq_refl).
    pose proof (count_lookup arrived _ _ _ Hi eq_refl). lia.
  - apply in_turn_all_return.
Qed.

Lemma call_once_exactly_once_witness :
  (let s := run [0; 1; 2; 1; 0; 2; 0; 1; 0; 1; 2; 2] (init 3) in
   callers s !! 1 = Some Returned /\
   started s = 1 /\ finished s = 1 /\ status s = 2%Z) /\
  run (in_turn 3) (init 3) =
    {| status := 2; started := 1; finished := 1;
       callers := [Returned; Returned; Returned] |}.
Proof.
  destruct (call_once_exactly_once 3 [0; 1; 2; 1; 0; 2; 0; 1; 0; 1; 2; 2])
    as (_ & _ & _ & Hret & Hall).
  split.
  - split; [reflexivity|]. apply (Hret 1). reflexivity.
  - apply Hall. lia.
Defined.

End OnceFacts.

(** * Further properties of the code *)

(** ** Time conversion: precision *)

Section TimePrecision.

Import Time.

Lemma spec_milliseconds_of_nanoseconds ts :
  spec_milliseconds ts = nanoseconds ts / 1000000.
Proof.
  unfold spec_milliseconds, nanoseconds.
  replace (tv_sec ts * 1000000000) with (tv_sec ts * 1000 * 1000000) by lia.
  rewrite Z.div_add_l by lia. reflexivity.
Qed.

Lemma milliseconds_bracket ts :
  spec_milliseconds ts * 1000000 <= nanoseconds ts
    < spec_milliseconds ts * 1000000 + 1000000.
Proof.
  rewrite spec_milliseconds_of_nanoseconds.
  pose proof (Z.div_mod (nanoseconds ts) 1000000 ltac:(lia)).
  pose proof (Z.mod_pos_bound (nanoseconds ts) 1000000 ltac:(lia)).
  lia.
Qed.

Lemma abs2relmsec_value now abs_time :
  timespec_ok now -> timespec_ok abs_time ->
  impl_abs2relmsec now abs_time =
    if 0 <? spec_milliseconds abs_time - spec_milliseconds now
    then (spec_milliseconds abs_time - spec_milliseconds now) mod DWORD_modulus
    else 0.
Proof.
  intros Hnow Habs.
  pose proof (spec_milliseconds_range _ Hnow) as Rn.
  pose proof (spec_milliseconds_range _ Habs) as Ra.
  unfold impl_abs2relmsec. rewrite !timespec2msec_exact by assumption.
  destruct (Z.gtb_spec (spec_milliseconds abs_time) (spec_milliseconds now));
    destruct (Z.ltb_spec 0 (spec_milliseconds abs_time - spec_milliseconds now));
    try lia.
  rewrite to_time_t_small by lia. reflexivity.
Qed.

(** The timeout computed from a deadline is zero once the deadline, taken
    to the nanosecond, is not after the clock; it never exceeds the true
    time left by a full millisecond; and while the distance is below 2^32 ms
    it is not short of it by a full millisecond either. *)
Theorem abs2relmsec_within_a_millisecond now abs_time :
  timespec_ok now -> timespec_ok abs_time ->
  let left := nanoseconds abs_time - nanoseconds now in
  (left <= 0 -> impl_abs2relmsec now abs_time = 0) /\
  impl_abs2relmsec now abs_time * 1000000 < Z.max left 0 + 1000000 /\
  (spec_milliseconds abs_time - spec_milliseconds now < DWORD_modulus ->
     left - 1000000 < impl_abs2relmsec now abs_time * 1000000).
Proof.
  intros Hnow Habs left.
  pose proof (milliseconds_bracket now) as Bn.
  pose proof (milliseconds_bracket abs_time) as Ba.
  rewrite (abs2relmsec_value now abs_time Hnow Habs).
  set (d := spec_milliseconds abs_time - spec_milliseconds now) in *.
  assert (Hd : d * 1000000 < left + 1000000 /\ left - 1000000 < d * 1000000)
    by (unfold d, left; lia).
  destruct (Z.ltb_spec 0 d) as [Hpos|Hneg].
  - pose proof (Z.mod_pos_bound d DWORD_modulus ltac:(reflexivity)) as Hm.
    assert (Hle : d mod DWORD_modulus <= d) by (apply Z.mod_le; lia).
    split; [intros Hl; lia|]. split; [lia|].
    intros Hsmall. rewrite Z.mod_small by lia. lia.
  - split; [reflexivity|]. split; lia.
Qed.

Lemma abs2relmsec_within_a_millisecond_witness :
  impl_abs2relmsec {| tv_sec := 100; tv_nsec := 999900000 |}
                   {| tv_sec := 101; tv_nsec := 100 |} * 1000000
    < Z.max 100100 0 + 1000000.
Proof.
  apply (abs2relmsec_within_a_millisecond
           {| tv_sec := 100; tv_nsec := 999900000 |}
           {| tv_sec := 101; tv_nsec := 100 |});
    vm_compute; repeat split; congruence.
Defined.

(** [thrd_sleep] with a null [remaining], in either build, asks the system
    for one [Sleep] whose argument is the requested duration in whole
    milliseconds, reduced modulo 2^32.  When that argument is 0xFFFFFFFF,
    which is [INFINITE], the call never returns; otherwise it returns 0
    after the sleep.  For a duration below 2^32 ms the argument is the
    duration rounded down, so the sleep asked of the system can be up to a
    millisecond shorter than the request. *)
Theorem thrd_sleep_rounds_down ndebug tp w :
  timespec_ok tp ->
  let ms := spec_milliseconds tp mod DWORD_modulus in
  (ms <> Thrd.INFINITE ->
     Thrd.thrd_sleep ndebug (Some tp) None w =
       Thrd.Returns (thrd_success,
                     {| Thrd.handles := Thrd.handles w;
                        Thrd.calls := Thrd.calls w ++ [Thrd.CallSleep ms] |})) /\
  (ms = Thrd.INFINITE ->
     Thrd.thrd_sleep ndebug (Some tp) None w = Thrd.NeverReturns) /\
  (spec_milliseconds tp < DWORD_modulus ->
     ms * 1000000 <= nanoseconds tp < ms * 1000000 + 1000000).
Proof.
  intros Hok ms.
  assert (E : Thrd.thrd_sleep ndebug (Some tp) None w =
              match Thrd.Sleep ms w with
              | Some w' => Thrd.Returns (0, w')
              | None => Thrd.NeverReturns
              end).
  { unfold Thrd.thrd_sleep, Thrd.c_assert. cbn [Thrd.non_null negb].
    rewrite timespec2msec_exact by assumption.
    destruct ndebug; reflexivity. }
  rewrite E. unfold Thrd.Sleep. split; [|split].
  - intros Hne. destruct (Z.eqb_spec ms Thrd.INFINITE); [contradiction|].
    reflexivity.
  - intros ->. reflexivity.
  - intros Hsmall. pose proof (spec_milliseconds_range _ Hok).
    unfold ms. rewrite Z.mod_small by lia. apply milliseconds_bracket.
Qed.

Lemma thrd_sleep_rounds_down_witness :
  Thrd.thrd_sleep false (Some {| tv_sec := 0; tv_nsec := 1900000 |}) None
                  Thrd.one_thread
    = Thrd.Returns (0, {| Thrd.handles := [7];
                          Thrd.calls := [Thrd.CallSleep 1] |}) /\
  Thrd.thrd_sleep false (Some {| tv_sec := 4294967; tv_nsec := 295000000 |})
                  None Thrd.one_thread
    = Thrd.NeverReturns.
Proof.
  destruct (thrd_sleep_rounds_down false {| tv_sec := 0; tv_nsec := 1900000 |}
              Thrd.one_thread) as (Hret & _ & _).
  { vm_compute. repeat split; congruence. }
  destruct (thrd_sleep_rounds_down false
              {| tv_sec := 4294967; tv_nsec := 295000000 |} Thrd.one_thread)
    as (_ & Hhang & _).
  { vm_compute. repeat split; congruence. }
  split.
  - apply Hret. vm_compute. congruence.
  - apply Hhang. reflexivity.
Defined.

End TimePrecision.

(** ** Mutex functions: what the poll loop can and cannot do *)

Section MtxLoop.

Import Time Mtx.

Lemma held_or_not e w : not_held_by_other e w \/ held_by_other e w.
Proof.
  unfold not_held_by_other, held_by_other.
  destruct (Z.eq_dec (owner_now e w) 0), (Z.eq_dec (owner_now e w) (self e));
    auto.
Qed.

(** Whenever [mtx_timedlock] returns, it returns [thrd_success] with the
    caller owning the section, or [thrd_timedout] with the section owned by
    another thread; it never returns [thrd_busy] or [thrd_error], and it has
    made at least one attempt. *)
Theorem mtx_timedlock_results fuel :
  forall e ts w r w',
    mtx_timedlock fuel e ts w = (Some r, w') ->
    ((r = thrd_success /\ OwningThread w' = self e) \/
     (r = thrd_timedout /\ OwningThread w' <> self e /\ OwningThread w' <> 0)) /\
    (tries w < tries w')%nat.
Proof.
  induction fuel as [|fuel IH]; intros e ts w r w' Hrun; [discriminate Hrun|].
  destruct (held_or_not e w) as [Hfree|Hheld].
  - rewrite (mtx_timedlock_acquires fuel e ts w Hfree) in Hrun.
    injection Hrun as <- <-.
    destruct (mtx_trylock_free e w Hfree) as (_ & Ho & _).
    split; [left; auto|].
    unfold mtx_trylock, TryEnterCriticalSection.
    destruct ((owner_now e w =? 0) || (owner_now e w =? self e)); cbn; lia.
  - destruct (expired_at e ts (reads w)) eqn:Hexp.
    + rewrite (mtx_timedlock_expires fuel e ts w Hheld Hexp) in Hrun.
      injection Hrun as <- <-. cbn [OwningThread tries].
      destruct Hheld as [H0 Hs]. split; [right; auto|lia].
    + rewrite (mtx_timedlock_turn fuel e ts w Hheld Hexp) in Hrun.
      apply IH in Hrun. cbn [tries] in Hrun. destruct Hrun as [Hres Ht].
      split; [exact Hres|lia].
Qed.

Lemma mtx_timedlock_results_witness :
  ((thrd_timedout = thrd_success /\
    OwningThread (snd (mtx_timedlock 4 stuck {| tv_sec := 100; tv_nsec := 25000000 |} idle))
      = self stuck) \/
   (thrd_timedout = thrd_timedout /\
    OwningThread (snd (mtx_timedlock 4 stuck {| tv_sec := 100; tv_nsec := 25000000 |} idle))
      <> self stuck /\
    OwningThread (snd (mtx_timedlock 4 stuck {| tv_sec := 100; tv_nsec := 25000000 |} idle))
      <> 0)) /\
  (tries idle
   < tries (snd (mtx_timedlock 4 stuck {| tv_sec := 100; tv_nsec := 25000000 |} idle)))%nat.
Proof.
  apply (mtx_timedlock_results 4 stuck {| tv_sec := 100; tv_nsec := 25000000 |}
           idle thrd_timedout).
  vm_compute. reflexivity.
Defined.

(** The loop has no bound of its own: while another thread holds the
    section at every attempt and every clock reading leaves time before the
    deadline, no number of turns makes [mtx_timedlock] return; after [fuel]
    turns it has yielded [fuel] times and is still polling. *)
Theorem mtx_timedlock_keeps_polling e ts w fuel :
  OwningThread w <> self e ->
  (forall i, busy_at e (tries w + i) = true /\
             expired_at e ts (reads w + i) = false) ->
  fst (mtx_timedlock fuel e ts w) = None /\
  calls (snd (mtx_timedlock fuel e ts w))
    = calls w ++ failed_turns e (reads w) fuel.
Proof.
  intros Hown Hall.
  destruct (mtx_timedlock_turns fuel 0%nat e ts w Hown (fun i _ => Hall i))
    as (w' & Hrun & _ & _ & _ & Hc).
  rewrite Nat.add_0_r in Hrun. rewrite Hrun. cbn. auto.
Qed.

Lemma mtx_timedlock_keeps_polling_witness :
  fst (mtx_timedlock 50 frozen {| tv_sec := 101; tv_nsec := 0 |} idle) = None.
Proof.
  apply (mtx_timedlock_keeps_polling frozen {| tv_sec := 101; tv_nsec := 0 |}
           idle 50%nat).
  - vm_compute. congruence.
  - intros i. split; reflexivity.
Defined.

End MtxLoop.

(** ** Mutex functions: edge behaviour *)

Section MtxEdge.

Import Time Mtx.

(** A deadline that lies a whole multiple of 2^32 ms (about 49.7 days)
    after the clock reading counts as reached: with the section held by
    another thread, [mtx_timedlock] returns [thrd_timedout] after its first
    attempt, without yielding, though the deadline is in the future. *)
Theorem mtx_timedlock_wrapped_deadline e ts w fuel :
  timespec_ok ts -> timespec_ok (clock e (reads w)) ->
  held_by_other e w ->
  0 < spec_milliseconds ts - spec_milliseconds (clock e (reads w)) ->
  (spec_milliseconds ts - spec_milliseconds (clock e (reads w)))
    mod DWORD_modulus = 0 ->
  fst (mtx_timedlock (S fuel) e ts w) = Some thrd_timedout /\
  calls (snd (mtx_timedlock (S fuel) e ts w))
    = calls w ++ [CallTryEnterCriticalSection false;
                  CallTimespecGet (clock e (reads w))].
Proof.
  intros Hts Hnow Hheld Hpos Hwrap.
  rewrite (mtx_timedlock_expires fuel e ts w Hheld).
  - cbn. auto.
  - unfold expired_at. rewrite (abs2relmsec_value _ _ Hnow Hts).
    destruct (Z.ltb_spec 0 (spec_milliseconds ts
                            - spec_milliseconds (clock e (reads w)))); [|lia].
    rewrite Hwrap. reflexivity.
Qed.

Lemma mtx_timedlock_wrapped_deadline_witness :
  fst (mtx_timedlock 1 frozen {| tv_sec := 4295067; tv_nsec := 296000000 |} idle)
    = Some thrd_timedout.
Proof.
  apply (mtx_timedlock_wrapped_deadline frozen
           {| tv_sec := 4295067; tv_nsec := 296000000 |} idle 0%nat);
    vm_compute; repeat split; congruence.
Defined.

(** The kind given to [mtx_init] is checked and then dropped: whichever of
    the six kinds was given, [mtx_plain] included, the mutex is re-entrant.
    Once a thread has taken a freshly initialised mutex, its further
    [mtx_trylock] and [mtx_timedlock] calls succeed at once, whatever the
    other threads do, and the recursion count goes up by one. *)
Theorem mtx_plain_is_reentrant type e ts w fuel :
  In type valid_kinds -> self e <> 0 -> holder e (tries w) = 0 ->
  let w0 := snd (mtx_init type w) in
  let w1 := snd (mtx_trylock e w0) in
  fst (mtx_trylock e w0) = thrd_success /\ RecursionCount w1 = 1 /\
  fst (mtx_trylock e w1) = thrd_success /\
  RecursionCount (snd (mtx_trylock e w1)) = 2 /\
  fst (mtx_timedlock (S fuel) e ts w1) = Some thrd_success /\
  RecursionCount (snd (mtx_timedlock (S fuel) e ts w1)) = 2.
Proof.
  intros Hin Hself Hfree w0 w1.
  assert (E0 : w0 = InitializeCriticalSection w).
  { unfold w0. simpl in Hin.
    destruct Hin as [<-|[<-|[<-|[<-|[<-|[<-|[]]]]]]]; reflexivity. }
  assert (E1 : mtx_trylock e w0 =
    (thrd_success,
     {| OwningThread := self e; RecursionCount := 1;
        tries := S (tries w); reads := reads w;
        calls := (calls w ++ [CallInitializeCriticalSection])
                 ++ [CallTryEnterCriticalSection true] |})).
  { rewrite E0. unfold mtx_trylock, TryEnterCriticalSection, owner_now,
      InitializeCriticalSection. cbn [OwningThread tries reads calls RecursionCount].
    destruct (Z.eqb_spec 0 (self e)); [congruence|].
    rewrite Hfree. reflexivity. }
  assert (E2 : mtx_trylock e w1 =
    (thrd_success,
     {| OwningThread := self e; RecursionCount := 2;
        tries := S (S (tries w)); reads := reads w;
        calls := calls w1 ++ [CallTryEnterCriticalSection true] |})).
  { unfold w1. rewrite E1. cbn [snd].
    unfold mtx_trylock, TryEnterCriticalSection, owner_now.
    cbn [OwningThread tries reads calls RecursionCount].
    rewrite Z.eqb_refl, Z.eqb_refl, orb_true_r. reflexivity. }
  assert (Hn : not_held_by_other e w1).
  { right. unfold w1. rewrite E1. unfold owner_now. cbn [snd OwningThread].
    rewrite Z.eqb_refl. reflexivity. }
  rewrite (mtx_timedlock_acquires fuel e ts w1 Hn), E2.
  unfold w1 at 1 2. rewrite E1. cbn. repeat split; reflexivity.
Qed.

Lemma mtx_plain_is_reentrant_witness :
  fst (mtx_trylock contended
         (snd (mtx_trylock contended (snd (mtx_init mtx_plain
            {| OwningThread := 0; RecursionCount := 0; tries := 3; reads := 0;
               calls := [] |})))))
    = thrd_success.
Proof.
  apply (mtx_plain_is_reentrant mtx_plain contended {| tv_sec := 0; tv_nsec := 0 |}
           {| OwningThread := 0; RecursionCount := 0; tries := 3; reads := 0;
              calls := [] |} 0%nat).
  - simpl. auto.
  - vm_compute. congruence.
  - reflexivity.
Defined.

End MtxEdge.

(** ** Thread-specific storage: the table over time *)

Section TssTable.

Import Tss.

Lemma entries_taken done :
  Forall (fun r => snd r <> 0) done ->
  Forall (fun en => dtor en <> 0) (map entry_of done).
Proof.
  intros Hall. induction Hall as [|r done Hr _ IH]; constructor; auto.
Qed.

Lemma tbl_of_full done :
  length done = EMULATED_THREADS_TSS_DTOR_SLOTNUM ->
  Forall (fun r => snd r <> 0) done ->
  forall w, impl_tss_dtor_tbl w = tbl_of done -> tbl_full w.
Proof.
  intros Hlen Hall w Ht. unfold tbl_full. rewrite Ht. split.
  - apply tbl_of_length. lia.
  - unfold tbl_of. rewrite Hlen, Nat.sub_diag, app_nil_r.
    apply entries_taken. exact Hall.
Qed.

Lemma register_when_full k d w :
  tbl_full w -> impl_tss_dtor_register k d w = (1, w).
Proof.
  intros Hfull. unfold impl_tss_dtor_register.
  rewrite (first_free_none w Hfull), Nat.eqb_refl. reflexivity.
Qed.

Lemma register_all_from done regs :
  forall w,
    impl_tss_dtor_tbl w = tbl_of done ->
    Forall (fun r => snd r <> 0) done ->
    Forall (fun r => snd r <> 0) regs ->
    (length done <= EMULATED_THREADS_TSS_DTOR_SLOTNUM)%nat ->
    impl_tss_dtor_tbl (register_all regs w)
      = tbl_of (take EMULATED_THREADS_TSS_DTOR_SLOTNUM (done ++ regs)).
Proof.
  revert done. induction regs as [|[k d] regs IH]; intros done w Ht Hdone Hregs Hlen.
  - cbn [register_all]. rewrite app_nil_r, take_ge by lia. exact Ht.
  - inversion Hregs as [|r rs Hd Hrest]; subst. cbn [register_all].
    destruct (Nat.eq_dec (length done) EMULATED_THREADS_TSS_DTOR_SLOTNUM)
      as [Hfull|Hroom].
    + rewrite (register_when_full k d w (tbl_of_full done Hfull Hdone w Ht)).
      cbn [snd]. rewrite (IH done w Ht Hdone Hrest Hlen).
      rewrite !take_app_le by lia. reflexivity.
    + rewrite (register_next done k d w Ht Hdone) by lia. cbn [snd].
      rewrite (IH (done ++ [(k, d)])).
      * rewrite <- app_assoc. reflexivity.
      * reflexivity.
      * apply Forall_app. split; [assumption|]. constructor; [exact Hd|constructor].
      * exact Hrest.
      * rewrite length_app. cbn [length]. lia.
Qed.

(** The table holds the first 64 registrations and no more: after any
    sequence of registrations of non-null destructors in a fresh process the
    table is made of the first 64 pairs, in order, and one more
    registration returns 0 while fewer than 64 were made and 1, leaving the
    table as it is, from then on. *)
Theorem register_all_capacity regs w :
  impl_tss_dtor_tbl w = empty_tbl ->
  Forall (fun r => snd r <> 0) regs ->
  impl_tss_dtor_tbl (register_all regs w)
    = tbl_of (take EMULATED_THREADS_TSS_DTOR_SLOTNUM regs) /\
  forall k d,
    impl_tss_dtor_register k d (register_all regs w) =
      if (length regs <? EMULATED_THREADS_TSS_DTOR_SLOTNUM)%nat
      then (0, set_tbl (tbl_of (regs ++ [(k, d)])) (register_all regs w))
      else (1, register_all regs w).
Proof.
  intros Ht Hregs.
  pose proof (register_all_from [] regs w Ht ltac:(constructor) Hregs
                ltac:(cbn; lia)) as Htbl.
  cbn [app] in Htbl. split; [exact Htbl|]. intros k d.
  assert (Htake : Forall (fun r => snd r <> 0)
                    (take EMULATED_THREADS_TSS_DTOR_SLOTNUM regs))
    by (apply Forall_take; exact Hregs).
  destruct (Nat.ltb_spec (length regs) EMULATED_THREADS_TSS_DTOR_SLOTNUM)
    as [Hlt|Hge].
  - rewrite take_ge in Htbl by lia.
    apply (register_next regs k d _ Htbl Hregs Hlt).
  - apply register_when_full.
    assert (Hlen : length (take EMULATED_THREADS_TSS_DTOR_SLOTNUM regs)
                   = EMULATED_THREADS_TSS_DTOR_SLOTNUM)
      by (rewrite length_take; apply Nat.min_l; exact Hge).
    apply (tbl_of_full _ Hlen Htake _ Htbl).
Qed.

Lemma register_all_capacity_witness :
  fst (impl_tss_dtor_register 9 4096
         (register_all (replicate 64 (1, 4096)) fresh)) = 1 /\
  fst (impl_tss_dtor_register 9 4096
         (register_all (replicate 63 (1, 4096)) fresh)) = 0.
Proof.
  split.
  - destruct (register_all_capacity (replicate 64 (1, 4096)) fresh) as [_ H].
    + reflexivity.
    + apply Forall_replicate. cbn. lia.
    + rewrite H. reflexivity.
  - destruct (register_all_capacity (replicate 63 (1, 4096)) fresh) as [_ H].
    + reflexivity.
    + apply Forall_replicate. cbn. lia.
    + rewrite H. reflexivity.
Defined.

Lemma register_keeps_taken k d w j en :
  impl_tss_dtor_tbl w !! j = Some en -> dtor en <> 0 ->
  impl_tss_dtor_tbl (snd (impl_tss_dtor_register k d w)) !! j = Some en.
Proof.
  intros Hj Hen. unfold impl_tss_dtor_register.
  destruct (first_free_bounds w EMULATED_THREADS_TSS_DTOR_SLOTNUM 0%nat)
    as (Hb & _ & Hat).
  set (i := first_free w 0 EMULATED_THREADS_TSS_DTOR_SLOTNUM) in *.
  destruct (Nat.eqb_spec i EMULATED_THREADS_TSS_DTOR_SLOTNUM); [exact Hj|].
  cbn [snd set_tbl impl_tss_dtor_tbl].
  rewrite list_lookup_insert_ne; [exact Hj|].
  intros ->. specialize (Hat ltac:(lia)). unfold entry_at in Hat.
  rewrite Hj in Hat. cbn in Hat. contradiction.
Qed.

(** A registered destructor is there for good: no operation of the
    library removes or overwrites a table entry whose destructor is
    non-null, and the table keeps its length. *)
Theorem registered_entries_persist user w j en :
  impl_tss_dtor_tbl w !! j = Some en -> dtor en <> 0 ->
  (forall k d,
     impl_tss_dtor_tbl (snd (impl_tss_dtor_register k d w)) !! j = Some en /\
     length (impl_tss_dtor_tbl (snd (impl_tss_dtor_register k d w)))
       = length (impl_tss_dtor_tbl w)) /\
  (forall d, impl_tss_dtor_tbl (snd (tss_create d w)) !! j = Some en) /\
  (forall k, impl_tss_dtor_tbl (tss_delete k w) !! j = Some en) /\
  (forall k val, impl_tss_dtor_tbl (snd (tss_set k val w)) !! j = Some en) /\
  (quiet user -> impl_tss_dtor_tbl (impl_tss_dtor_invoke user w) !! j = Some en).
Proof.
  intros Hj Hen. split; [|split; [|split; [|split]]].
  - intros k d. split; [apply register_keeps_taken; assumption|].
    unfold impl_tss_dtor_register.
    destruct (_ =? _)%nat; cbn; [reflexivity|apply length_insert].
  - intros d. unfold tss_create.
    pose proof (TlsAlloc_tbl w) as Ht.
    destruct (TlsAlloc w) as [k w1]. cbn [snd] in Ht.
    assert (Hj1 : impl_tss_dtor_tbl w1 !! j = Some en) by (rewrite Ht; exact Hj).
    pose proof (register_keeps_taken k d w1 j en Hj1 Hen) as Hreg.
    destruct (negb (d =? 0)); [|exact Hj1].
    destruct (impl_tss_dtor_register k d w1) as [failed w2]. cbn [snd] in Hreg.
    destruct (negb (failed =? 0)); exact Hreg.
  - intros k. exact Hj.
  - intros k val. unfold tss_set, TlsSetValue.
    destruct (bool_decide _); exact Hj.
  - intros Hq. unfold impl_tss_dtor_invoke.
    destruct (sweep_from_quiet user Hq EMULATED_THREADS_TSS_DTOR_SLOTNUM 0%nat w)
      as (Ht & _ & _).
    rewrite Ht. exact Hj.
Qed.

Lemma registered_entries_persist_witness :
  impl_tss_dtor_tbl (snd (tss_create 8192 crowded)) !! 5%nat
    = Some {| key := 1; dtor := 4096 |}.
Proof.
  destruct (registered_entries_persist silent crowded 5%nat
              {| key := 1; dtor := 4096 |}) as (_ & Hcreate & _).
  - reflexivity.
  - cbn. lia.
  - apply Hcreate.
Defined.

End TssTable.

(** ** Thread-specific storage: creation, reuse and the sweep *)

Section TssLifecycle.

Import Tss.

(** [tss_create] with a null destructor never touches the table and never
    frees a slot, so it works with a full table too: the call succeeds with
    the index [TlsAlloc] hands out, the new slot reads null, and the call
    fails only when [TlsAlloc] has no index left. *)
Theorem tss_create_without_destructor w :
  let r := tss_create 0 w in
  impl_tss_dtor_tbl (snd r) = impl_tss_dtor_tbl w /\
  calls (snd r) = calls w ++ [CallTlsAlloc (snd (fst r))] /\
  (forall k rest,
     tls_next w = k :: rest -> k <> TLS_OUT_OF_INDEXES ->
     fst r = (thrd_success, k) /\ In k (tls_in_use (snd r)) /\
     tss_get k (snd r) = 0) /\
  (tls_next w = [] -> fst r = (thrd_error, TLS_OUT_OF_INDEXES)).
Proof.
  unfold tss_create, TlsAlloc, tss_get, TlsGetValue.
  destruct (tls_next w) as [|k0 rest0]; cbn.
  - split; [reflexivity|]. split; [reflexivity|].
    split; [intros k rest H; discriminate H|reflexivity].
  - split; [reflexivity|]. split; [reflexivity|].
    split; [|intros H; discriminate H].
    intros k rest H Hk. injection H as <- _.
    destruct (Z.eqb_spec k0 TLS_OUT_OF_INDEXES); [contradiction|].
    cbn. rewrite Z.eqb_refl. auto.
Qed.

Lemma tss_create_without_destructor_witness :
  fst (tss_create 0 crowded) = (thrd_success, 3) /\
  fst (tss_create 0 exhausted) = (thrd_error, TLS_OUT_OF_INDEXES).
Proof.
  destruct (tss_create_without_destructor crowded) as (_ & _ & Hok & _).
  destruct (tss_create_without_destructor exhausted) as (_ & _ & _ & Hnone).
  split.
  - apply (Hok 3 [4; 5]).
    + reflexivity.
    + vm_compute. congruence.
  - apply Hnone. reflexivity.
Defined.

(** When [TlsAlloc] fails while the table has a free entry, [tss_create]
    with a non-null destructor returns [thrd_error] but has already written
    the pair (0xFFFFFFFF, destructor) into the first free entry, which stays
    taken; no [TlsFree] is made. *)
Theorem tss_create_failed_alloc_takes_entry d w i :
  d <> 0 ->
  length (impl_tss_dtor_tbl w) = EMULATED_THREADS_TSS_DTOR_SLOTNUM ->
  first_free_is w i -> tls_next w = [] ->
  let r := tss_create d w in
  fst r = (thrd_error, TLS_OUT_OF_INDEXES) /\
  impl_tss_dtor_tbl (snd r) !! i
    = Some {| key := TLS_OUT_OF_INDEXES; dtor := d |} /\
  (forall j, j <> i ->
     impl_tss_dtor_tbl (snd r) !! j = impl_tss_dtor_tbl w !! j) /\
  calls (snd r) = calls w ++ [CallTlsAlloc TLS_OUT_OF_INDEXES].
Proof.
  intros Hd Hlen Hfree Hnext r. subst r. unfold tss_create, TlsAlloc.
  rewrite Hnext. destruct (Z.eqb_spec d 0); [contradiction|]. cbn [negb].
  unfold impl_tss_dtor_register.
  rewrite (first_free_same_tbl w) by reflexivity.
  rewrite (first_free_found w i Hfree).
  destruct Hfree as (Hi & _ & _).
  destruct (Nat.eqb_spec i EMULATED_THREADS_TSS_DTOR_SLOTNUM); [lia|].
  cbn. repeat split.
  - apply list_lookup_insert_eq. lia.
  - intros j Hj. apply list_lookup_insert_ne. congruence.
Qed.

Lemma tss_create_failed_alloc_takes_entry_witness :
  impl_tss_dtor_tbl (snd (tss_create 4096 exhausted)) !! 0%nat
    = Some {| key := TLS_OUT_OF_INDEXES; dtor := 4096 |}.
Proof.
  apply (tss_create_failed_alloc_takes_entry 4096 exhausted 0%nat).
  - lia.
  - reflexivity.
  - split; [|split].
    + unfold EMULATED_THREADS_TSS_DTOR_SLOTNUM. lia.
    + reflexivity.
    + intros j Hj. lia.
  - reflexivity.
Defined.





(** The sweep does not clear a slot before or after calling its destructor:
    with destructor bodies that leave the storage alone, the table and every
    slot value are after the sweep what they were before it, so a second
    sweep makes the same destructor calls again. *)
Theorem sweep_keeps_values user w :
  quiet user ->
  impl_tss_dtor_tbl (impl_tss_dtor_invoke user w) = impl_tss_dtor_tbl w /\
  (forall k, tss_get k (impl_tss_dtor_invoke user w) = tss_get k w) /\
  exists made,
    dtor_calls (impl_tss_dtor_invoke user w) = dtor_calls w ++ made /\
    dtor_calls (impl_tss_dtor_invoke user (impl_tss_dtor_invoke user w))
      = dtor_calls w ++ made ++ made.
Proof.
  intros Hq. unfold impl_tss_dtor_invoke, tss_get, TlsGetValue.
  destruct (sweep_from_quiet user Hq EMULATED_THREADS_TSS_DTOR_SLOTNUM 0%nat w)
    as (Ht & Hv & Hc).
  set (w' := sweep_from user 0 EMULATED_THREADS_TSS_DTOR_SLOTNUM w) in *.
  destruct (sweep_from_quiet user Hq EMULATED_THREADS_TSS_DTOR_SLOTNUM 0%nat w')
    as (_ & _ & Hc').
  split; [exact Ht|]. split; [intros k; rewrite Hv; reflexivity|].
  eexists. split; [exact Hc|].
  rewrite Hc', Hc, Hv, <- app_assoc. do 2 f_equal.
  f_equal. apply map_ext. intros j. unfold entry_at. rewrite Ht. reflexivity.
Qed.

Lemma sweep_keeps_values_witness :
  tss_get 3
    (impl_tss_dtor_invoke silent
       (register_all [(3, 4096); (4, 8192); (5, 4096)] exiting)) = 111.
Proof.
  destruct (sweep_keeps_values silent
              (register_all [(3, 4096); (4, 8192); (5, 4096)] exiting))
    as (_ & Hv & _).
  - intros d val w. auto.
  - rewrite Hv. reflexivity.
Defined.

End TssLifecycle.

(** ** Joining *)

Section JoinFacts.

Import Thrd.

Lemma CloseHandle_others h thr w :
  h <> thr -> In h (handles w) -> In h (handles (CloseHandle thr w)).
Proof.
  intros Hne Hin. cbn [handles CloseHandle].
  rewrite <- list_elem_of_In, list_elem_of_filter, list_elem_of_In. auto.
Qed.

(** After a successful wait [thrd_join] closes the joined handle and no
    other.  With a null [res] it returns [thrd_success] without asking for
    the exit code; with a non-null [res] it asks for it, stores it as an
    [int] and returns [thrd_success], or, when the exit code cannot be had,
    returns [thrd_error] and leaves [*res] as it was. *)
Theorem thrd_join_after_successful_wait e thr res w :
  wait_result e = WAIT_OBJECT_0 ->
  let r := thrd_join e thr res w in
  ~ In thr (handles (snd r)) /\
  (forall h, h <> thr -> In h (handles w) -> In h (handles (snd r))) /\
  (res = None ->
     fst r = (thrd_success, None) /\
     calls (snd r) = calls w ++ [CallWaitForSingleObject thr INFINITE;
                                 CallCloseHandle thr]) /\
  (forall old, res = Some old ->
     fst r = match exit_code e with
             | Some code => (thrd_success, Some (to_int code))
             | None => (thrd_error, Some old)
             end /\
     calls (snd r) = calls w ++ [CallWaitForSingleObject thr INFINITE;
                                 CallGetExitCodeThread thr;
                                 CallCloseHandle thr]).
Proof.
  intros Hw r. subst r. unfold thrd_join, WaitForSingleObject, GetExitCodeThread.
  rewrite Hw. change (negb (WAIT_OBJECT_0 =? WAIT_OBJECT_0)) with false.
  cbv iota. split; [|split; [|split]].
  - destruct res; [destruct (exit_code e)|]; apply CloseHandle_released.
  - intros h Hne Hin.
    destruct res; [destruct (exit_code e)|]; apply CloseHandle_others; auto.
  - intros ->. cbn. rewrite <- app_assoc. auto.
  - intros old ->. destruct (exit_code e); cbn; rewrite <- !app_assoc; auto.
Qed.

Lemma thrd_join_after_successful_wait_witness :
  fst (thrd_join exits_42 7 (Some 0) one_thread) = (thrd_success, Some 42) /\
  ~ In 7 (handles (snd (thrd_join exits_42 7 (Some 0) one_thread))).
Proof.
  destruct (thrd_join_after_successful_wait exits_42 7 (Some 0) one_thread)
    as (Hgone & _ & _ & Hres); [reflexivity|].
  split; [apply (Hres 0 eq_refl)|exact Hgone].
Defined.

End JoinFacts.

(** ** Thread creation and the start routine *)

Section SpawnFacts.

Import Spawn.

Lemma unused_block_kept p (g : Z * impl_thrd_param -> Z * impl_thrd_param) h :
  ~ In p (map fst h) ->
  map (fun b => if fst b =? p then g b else b) h = h.
Proof.
  induction h as [|b h IH]; intros Hp; cbn; [reflexivity|].
  cbn in Hp. destruct (Z.eqb_spec (fst b) p); [tauto|].
  rewrite IH by tauto. reflexivity.
Qed.

Lemma free_unused (p : Z) (h : list (Z * impl_thrd_param)) :
  ~ In p (map fst h) -> filter (fun b => fst b <> p) h = h.
Proof.
  induction h as [|b h IH]; intros Hp; [reflexivity|].
  cbn in Hp. rewrite filter_cons_True by tauto.
  rewrite IH by tauto. reflexivity.
Qed.

Lemma thrd_create_started e thr f a w :
  ~ In (malloc_result e) (map fst (heap w)) ->
  malloc_result e <> 0 -> beginthreadex_result e <> 0 ->
  thrd_create e thr f a w =
    (thrd_success, beginthreadex_result e,
     {| heap := (malloc_result e, {| func := f; arg := a |}) :: heap w;
        begun := (beginthreadex_result e, malloc_result e) :: begun w |}).
Proof.
  intros Hfresh Hm Hh. unfold thrd_create, malloc, beginthreadex.
  destruct (Z.eqb_spec (malloc_result e) 0); [contradiction|].
  destruct (Z.eqb_spec (malloc_result e) 0); [contradiction|].
  destruct (Z.eqb_spec (beginthreadex_result e) 0); [contradiction|].
  destruct (Z.eqb_spec (beginthreadex_result e) 0); [contradiction|].
  unfold set_arg, set_func. cbn. rewrite !Z.eqb_refl. cbn.
  rewrite ?Z.eqb_refl. cbn.
  rewrite !(unused_block_kept (malloc_result e) _ (heap w)) by assumption. reflexivity.
Qed.

(** [thrd_create] succeeds exactly when both [malloc] and [_beginthreadex]
    do; then [*thr] is the new handle and the thread was begun on a package
    holding the function and its argument.  In every other case [*thr] is
    left alone, no thread is begun and the package, if one was allocated, is
    freed again: the world is what it was.  The result is [thrd_nomem] when
    [malloc] failed or [errno] is [EAGAIN] or [EACCES], and [thrd_error]
    otherwise. *)
Theorem thrd_create_outcomes e thr f a w :
  ~ In (malloc_result e) (map fst (heap w)) ->
  let r := thrd_create e thr f a w in
  (malloc_result e <> 0 -> beginthreadex_result e <> 0 ->
     fst r = (thrd_success, beginthreadex_result e) /\
     load (malloc_result e) (snd r) = Some {| func := f; arg := a |} /\
     begun (snd r) = (beginthreadex_result e, malloc_result e) :: begun w) /\
  (malloc_result e = 0 \/ beginthreadex_result e = 0 ->
     snd r = w /\ snd (fst r) = thr /\
     fst (fst r) =
       if (malloc_result e =? 0) || (errno e =? EAGAIN) || (errno e =? EACCES)
       then thrd_nomem else thrd_error).
Proof.
  intros Hfresh r. subst r. split.
  - intros Hm Hh. rewrite (thrd_create_started e thr f a w Hfresh Hm Hh).
    unfold load. cbn. rewrite Z.eqb_refl. auto.
  - intros Hfail. unfold thrd_create, malloc, beginthreadex.
    destruct (Z.eqb_spec (malloc_result e) 0) as [Hm|Hm].
    + cbn. auto.
    + destruct Hfail as [Hfail|Hfail]; [contradiction|].
      destruct (Z.eqb_spec (malloc_result e) 0); [contradiction|].
      rewrite Hfail. cbn [Z.eqb]. cbv iota.
      assert (Hback : free (malloc_result e)
                (set_arg (malloc_result e) a
                   (set_func (malloc_result e) f
                      {| heap := (malloc_result e, {| func := 0; arg := 0 |})
                                 :: heap w;
                         begun := begun w |})) = w).
      { unfold free, set_arg, set_func. cbn. rewrite !Z.eqb_refl. cbn.
        rewrite ?Z.eqb_refl. cbn.
        rewrite !(unused_block_kept (malloc_result e) _ (heap w)) by assumption.
        destruct (decide (malloc_result e <> malloc_result e)); [congruence|].
        rewrite free_unused by assumption. destruct w; reflexivity. }
      rewrite Hback. cbn [orb].
      destruct ((errno e =? EAGAIN) || (errno e =? EACCES)); cbn; auto.
Qed.

Lemma thrd_create_outcomes_witness :
  fst (thrd_create spawn_ok 0 64 5 no_threads) = (thrd_success, 7) /\
  thrd_create spawn_refused 0 64 5 no_threads = (thrd_nomem, 0, no_threads) /\
  thrd_create spawn_broken 0 64 5 no_threads = (thrd_error, 0, no_threads) /\
  thrd_create no_memory 0 64 5 no_threads = (thrd_nomem, 0, no_threads).
Proof.
  destruct (thrd_create_outcomes spawn_ok 0 64 5 no_threads) as [Hok _];
    [cbn; tauto|].
  destruct (thrd_create_outcomes spawn_refused 0 64 5 no_threads) as [_ H1];
    [cbn; tauto|].
  destruct (thrd_create_outcomes spawn_broken 0 64 5 no_threads) as [_ H2];
    [cbn; tauto|].
  destruct (thrd_create_outcomes no_memory 0 64 5 no_threads) as [_ H3];
    [cbn; tauto|].
  split; [apply Hok; vm_compute; congruence|].
  split; [|split]; reflexivity.
Defined.

End SpawnFacts.

(** ** The start routine, [thrd_exit] and the exit code *)

Section RoutineFacts.

Import Spawn.

Variable user : Z -> Z -> Tss.world -> Tss.world.
Variable body : Z -> Z -> Tss.world -> Z * Tss.world.

Lemma to_int_to_DWORD code : int_range code -> to_int (to_DWORD code) = code.
Proof.
  unfold int_range, to_int, to_DWORD, wrap_signed, wrap_unsigned. intros H.
  change (2 ^ (32 - 1)) with 2147483648. change (2 ^ 32) with 4294967296.
  rewrite Zplus_mod_idemp_l. rewrite Z.mod_small by lia. lia.
Qed.

(** The package travels from [thrd_create] to the new thread and is freed
    there, once: the start routine run on the package of a successful
    [thrd_create] calls the function given to [thrd_create] on the argument
    given to it, returns its result as an unsigned value, and leaves the heap
    as it was before [thrd_create]; the package is then gone. *)
Theorem start_package_handed_over e thr f a w t :
  ~ In (malloc_result e) (map fst (heap w)) ->
  malloc_result e <> 0 -> beginthreadex_result e <> 0 ->
  let w1 := snd (thrd_create e thr f a w) in
  let w2 := {| heap := heap w;
               begun := (beginthreadex_result e, malloc_result e) :: begun w |} in
  impl_thrd_routine user body (malloc_result e) w1 t =
    Some (to_DWORD (fst (body f a t)), w2,
          Tss.impl_tss_dtor_invoke user (snd (body f a t))) /\
  forall t', impl_thrd_routine user body (malloc_result e) w2 t' = None.
Proof.
  intros Hfresh Hm Hh w1 w2. unfold w1.
  rewrite (thrd_create_started e thr f a w Hfresh Hm Hh). cbn [snd].
  assert (Hgone : load_from (malloc_result e) (heap w) = None).
  { clear -Hfresh. induction (heap w) as [|b h IH]; [reflexivity|].
    cbn in Hfresh |- *. destruct (Z.eqb_spec (fst b) (malloc_result e)); [tauto|].
    apply IH. tauto. }
  split.
  - unfold impl_thrd_routine, load. cbn [heap load_from fst snd].
    rewrite Z.eqb_refl. cbn [func arg].
    destruct (body f a t) as [code t1]. cbn [fst snd].
    unfold free. cbn [heap begun].
    rewrite filter_cons_False by (cbn; tauto).
    rewrite free_unused by assumption. reflexivity.
  - intros t'. unfold impl_thrd_routine, load, w2. cbn [heap].
    rewrite Hgone. reflexivity.
Qed.


(** The exit code survives its trip through the unsigned thread status:
    when the thread function returns an [int], or the thread calls
    [thrd_exit] with one, a joiner that asks for the exit code gets that very
    value, negative ones included. *)
Theorem exit_code_reaches_joiner p w t pack e thr old hw :
  load p w = Some pack ->
  Thrd.wait_result e = Thrd.WAIT_OBJECT_0 ->
  (forall status w' t',
     impl_thrd_routine user body p w t = Some (status, w', t') ->
     int_range (fst (body (func pack) (arg pack) t)) ->
     Thrd.exit_code e = Some status ->
     fst (Thrd.thrd_join e thr (Some old) hw)
       = (thrd_success, Some (fst (body (func pack) (arg pack) t)))) /\
  (forall res,
     int_range res ->
     Thrd.exit_code e = Some (fst (thrd_exit user res t)) ->
     fst (Thrd.thrd_join e thr (Some old) hw) = (thrd_success, Some res)).
Proof.
  intros Hload Hw.
  assert (Hjoin : forall status,
            Thrd.exit_code e = Some status ->
            fst (Thrd.thrd_join e thr (Some old) hw)
              = (thrd_success, Some (to_int status))).
  { intros status He.
    unfold Thrd.thrd_join, Thrd.WaitForSingleObject, Thrd.GetExitCodeThread.
    rewrite Hw, He. reflexivity. }
  split.
  - intros status w' t' Hrun Hrange He.
    unfold impl_thrd_routine in Hrun. rewrite Hload in Hrun.
    destruct (body (func pack) (arg pack) t) as [code t1].
    injection Hrun as <- _ _. cbn [fst] in *.
    rewrite (Hjoin _ He), to_int_to_DWORD by assumption. reflexivity.
  - intros res Hrange He. cbn [thrd_exit fst] in He.
    rewrite (Hjoin _ He), to_int_to_DWORD by assumption. reflexivity.
Qed.

End RoutineFacts.

Section RoutineWitnesses.

Import Spawn.

Lemma start_package_handed_over_witness :
  option_map (fun r => fst (fst r))
    (impl_thrd_routine Tss.silent sets_3_and_5 4096
       (snd (thrd_create spawn_ok 0 64 5 no_threads)) Tss.exiting)
    = Some 4294967295.
Proof.
  destruct (start_package_handed_over Tss.silent sets_3_and_5 spawn_ok 0 64 5
              no_threads Tss.exiting) as [H _].
  - cbn. tauto.
  - vm_compute. congruence.
  - vm_compute. congruence.
  - change 4096 with (malloc_result spawn_ok). rewrite H. reflexivity.
Defined.


Lemma exit_code_reaches_joiner_witness :
  fst (Thrd.thrd_join
         {| Thrd.wait_result := Thrd.WAIT_OBJECT_0;
            Thrd.exit_code := Some 4294967295 |} 7 (Some 0) Thrd.one_thread)
    = (thrd_success, Some (-1)).
Proof.
  destruct (exit_code_reaches_joiner Tss.silent sets_3_and_5 4096
              {| heap := [(4096, {| func := 64; arg := 5 |})]; begun := [] |}
              Tss.exiting {| func := 64; arg := 5 |}
              {| Thrd.wait_result := Thrd.WAIT_OBJECT_0;
                 Thrd.exit_code := Some 4294967295 |} 7 0 Thrd.one_thread)
    as [Hret _]; [reflexivity|reflexivity|].
  eapply Hret.
  - reflexivity.
  - vm_compute. split; congruence.
  - reflexivity.
Defined.

End RoutineWitnesses.

(** ** Timed wait on a condition variable *)

Section CndFacts.

Import Time Cnd.

(** [cnd_timedwait] makes one native wait, whose timeout is the time left
    to the deadline in whole milliseconds reduced modulo 2^32: zero, a mere
    poll, once the deadline is reached, and [INFINITE], a wait without
    bound, when the distance is one short of a multiple of 2^32.  It returns
    [thrd_success] exactly when the native wait returned non-zero and
    [thrd_timedout] exactly when it returned zero with [ERROR_TIMEOUT];
    [cnd_wait] returns [thrd_success] whatever the native wait returned. *)
Theorem cnd_timedwait_timeout e abs_time w :
  timespec_ok (now e) -> timespec_ok abs_time ->
  let left := spec_milliseconds abs_time - spec_milliseconds (now e) in
  let r := cnd_timedwait e abs_time w in
  calls (snd r)
    = calls w ++ [CallSleepConditionVariableCS
                    (if 0 <? left then left mod DWORD_modulus else 0)] /\
  (0 < left -> left mod DWORD_modulus = DWORD_modulus - 1 ->
     calls (snd r) = calls w ++ [CallSleepConditionVariableCS INFINITE]) /\
  (fst r = thrd_success <-> woken e = true) /\
  (fst r = thrd_timedout <-> woken e = false /\ last_error e = ERROR_TIMEOUT) /\
  fst (cnd_wait e w) = thrd_success.
Proof.
  intros Hnow Habs left r. subst r.
  unfold cnd_timedwait, cnd_wait, SleepConditionVariableCS.
  rewrite (abs2relmsec_value (now e) abs_time Hnow Habs). fold left.
  assert (Hcalls : forall (c1 c2 : Z),
            calls (snd (if woken e then (c1, {| calls := calls w ++
                     [CallSleepConditionVariableCS
                        (if 0 <? left then left mod DWORD_modulus else 0)] |})
                   else (c2, {| calls := calls w ++
                     [CallSleepConditionVariableCS
                        (if 0 <? left then left mod DWORD_modulus else 0)] |})))
            = calls w ++ [CallSleepConditionVariableCS
                            (if 0 <? left then left mod DWORD_modulus else 0)])
    by (intros; destruct (woken e); reflexivity).
  split; [apply Hcalls|]. split; [|split; [|split]].
  - intros Hpos Hmod. rewrite Hcalls.
    destruct (Z.ltb_spec 0 left); [|lia]. rewrite Hmod. reflexivity.
  - destruct (woken e); cbn; [tauto|].
    destruct (Z.eqb_spec (last_error e) ERROR_TIMEOUT); cbn;
      split; intros H; discriminate H.
  - destruct (woken e); cbn.
    + split; [intros H; discriminate H|intros [H _]; discriminate H].
    + destruct (Z.eqb_spec (last_error e) ERROR_TIMEOUT); cbn.
      * tauto.
      * split; [intros H; discriminate H|tauto].
  - reflexivity.
Qed.

Lemma cnd_timedwait_timeout_witness :
  cnd_timedwait timing_out {| tv_sec := 100; tv_nsec := 250000000 |} quiet_cv
    = (thrd_timedout, {| calls := [CallSleepConditionVariableCS 250] |}) /\
  calls (snd (cnd_timedwait timing_out
                {| tv_sec := 4295067; tv_nsec := 295000000 |} quiet_cv))
    = [CallSleepConditionVariableCS INFINITE].
Proof.
  split; [reflexivity|].
  apply (cnd_timedwait_timeout timing_out
           {| tv_sec := 4295067; tv_nsec := 295000000 |} quiet_cv);
    vm_compute; repeat split; congruence.
Defined.

End CndFacts.

(** ** The emulated [call_once]: late callers and the life of the flag *)

Section OnceFlag.

Import Once.
Local Open Scope nat_scope.

(** A caller that meets a flag holding neither 0 nor 1, a completed flag
    in particular, returns after one failed exchange and one test of the
    flag: it does not run [func], does not yield and leaves the flag and the
    counts as they are. *)
Theorem call_once_after_completion i s :
  status s <> 0%Z -> status s <> 1%Z ->
  callers s !! i = Some AtExchange ->
  callers (step i s) !! i = Some AtTest /\
  step i (step i s) = at_pc i Returned s.
Proof.
  intros H0 H1 Hi.
  assert (Hlen : i < length (callers s)) by (apply lookup_lt_Some in Hi; exact Hi).
  assert (E : step i s = at_pc i AtTest s).
  { unfold step. rewrite Hi. unfold InterlockedCompareExchangePointer.
    destruct (Z.eqb_spec (status s) 0); [contradiction|]. reflexivity. }
  rewrite E. split.
  - cbn [at_pc callers]. apply list_lookup_insert_eq. exact Hlen.
  - unfold step. cbn [at_pc callers status].
    rewrite list_lookup_insert_eq by exact Hlen.
    destruct (Z.eqb_spec (status s) 1); [contradiction|].
    unfold at_pc. cbn [callers status started finished].
    rewrite list_insert_insert_eq. reflexivity.
Qed.

Lemma call_once_after_completion_witness :
  step 2 (step 2 (run [0; 0; 0; 0] (init 3)))
    = at_pc 2 Returned (run [0; 0; 0; 0] (init 3)).
Proof.
  apply (call_once_after_completion 2 (run [0; 0; 0; 0] (init 3)));
    vm_compute; congruence.
Defined.

Lemma step_advances i s :
  inv s ->
  (status s <= status (step i s))%Z /\ started s <= started (step i s) /\
  finished s <= finished (step i s).
Proof.
  intros Hinv. unfold step.
  destruct (callers s !! i) as [p|] eqn:Hi; [|lia].
  destruct p; cbn [at_pc status started finished
                   InterlockedExchangePointer]; try lia.
  - unfold InterlockedCompareExchangePointer.
    destruct (Z.eqb_spec (status s) 0); cbn [status started finished]; lia.
  - unfold inv in Hinv. lia.
Qed.

Lemma run_advances more :
  forall s,
    inv s ->
    (status s <= status (run more s))%Z /\ started s <= started (run more s) /\
    finished s <= finished (run more s).
Proof.
  induction more as [|i more IH]; intros s Hinv; [cbn; lia|].
  change (run (i :: more) s) with (run more (step i s)).
  pose proof (step_advances i s Hinv) as Hstep.
  specialize (IH (step i s) (step_inv i s Hinv)). lia.
Qed.

(** The flag only moves forward, from 0 to 1 to 2, and the counts of entries
    into [func] and returns from it never go down: however the callers go
    on from a state they have reached, a flag that was completed stays
    completed, with [func] entered and returned once. *)
Theorem flag_only_advances n sched more :
  let s := run sched (init n) in
  let s' := run more s in
  (status s <= status s' <= 2)%Z /\ started s <= started s' /\
  finished s <= finished s' /\
  (status s = 2%Z ->
     status s' = 2%Z /\ started s' = 1 /\ finished s' = 1).
Proof.
  intros s s'.
  assert (Hinv : inv s) by apply run_inv, init_inv.
  assert (Hinv' : inv s') by apply run_inv, Hinv.
  pose proof (run_advances more s Hinv) as Hmono. fold s' in Hmono.
  clearbody s'. clearbody s. unfold inv in Hinv'. lia.
Qed.

Lemma flag_only_advances_witness :
  status (run [2; 1; 2; 1] (run [0; 0; 0; 0] (init 3))) = 2%Z.
Proof.
  apply (flag_only_advances 3 [0; 0; 0; 0] [2; 1; 2; 1]). reflexivity.
Defined.

(** What holds of every state reached from a flag that did not hold 0. *)
Lemma claimed_flag_inv v sched :
  v <> 0%Z ->
  forall s,
    (status s = v /\ started s = 0 /\ finished s = 0 /\
     count claimed (callers s) = 0 /\
     (v = 1%Z -> count returned (callers s) = 0)) ->
    status (run sched s) = v /\ started (run sched s) = 0 /\
    finished (run sched s) = 0 /\
    count claimed (callers (run sched s)) = 0 /\
    (v = 1%Z -> count returned (callers (run sched s)) = 0).
Proof.
  intros Hv. induction sched as [|i sched IH]; intros s Hs; [exact Hs|].
  cbn [run fold_left]. apply IH. clear IH.
  destruct Hs as (Hst & Hstart & Hfin & Hcl & Hret).
  unfold step. destruct (callers s !! i) as [p|] eqn:Hi; [|auto].
  pose proof (count_insert claimed (callers s) i p) as Ic.
  pose proof (count_insert returned (callers s) i p) as Ir.
  destruct p;
    try (pose proof (count_lookup claimed _ _ _ Hi eq_refl); lia);
    cbn [at_pc status started finished callers].
  - unfold InterlockedCompareExchangePointer.
    destruct (Z.eqb_spec (status s) 0); [congruence|].
    cbn [status started finished callers].
    specialize (Ic AtTest Hi). specialize (Ir AtTest Hi). cbn in Ic, Ir.
    repeat split; try assumption; lia.
  - destruct (Z.eqb_spec (status s) 1) as [E1|E1].
    + specialize (Ic AtYield Hi). specialize (Ir AtYield Hi). cbn in Ic, Ir.
      repeat split; try assumption; lia.
    + specialize (Ic Returned Hi). cbn in Ic.
      repeat split; try assumption; try lia; intros H1; congruence.
  - specialize (Ic AtTest Hi). specialize (Ir AtTest Hi). cbn in Ic, Ir.
    repeat split; try assumption; lia.
  - repeat split; assumption.
Qed.

(** [func] is run only by a caller that found the flag at 0.  On a flag
    that holds any other value when the callers arrive, no interleaving ever
    enters [func] or changes the flag; and when that value is 1, the mark of
    an initialisation in progress, no caller ever returns: all of them
    poll. *)
Theorem call_once_needs_fresh_flag v n sched :
  v <> 0%Z ->
  let s := run sched (init_with v n) in
  status s = v /\ started s = 0 /\
  (v = 1%Z -> forall i, callers s !! i <> Some Returned).
Proof.
  intros Hv s.
  destruct (claimed_flag_inv v sched Hv (init_with v n)) as (Hst & Hs & _ & _ & Hr).
  { cbn. rewrite !count_replicate. cbn. auto. }
  fold s in Hst, Hs, Hr. split; [exact Hst|]. split; [exact Hs|].
  intros H1 i Hi.
  pose proof (count_lookup returned _ _ _ Hi eq_refl). specialize (Hr H1). lia.
Qed.

Lemma call_once_needs_fresh_flag_witness :
  started (run [0; 1; 0; 1; 0; 1; 0; 1] (init_with 1 2)) = 0.
Proof.
  apply (call_once_needs_fresh_flag 1 2 [0; 1; 0; 1; 0; 1; 0; 1]). lia.
Defined.

End OnceFlag.
